(** * neural/parameters.h: parameter views and parameter trees

    A shallow embedding of [ML::Parameter_Value] and its subclasses
    [Vector_Ref], [Matrix_Ref] and [Parameters].

    - Pointers are element addresses ([Z]) into one heap per element type
      ([float] or [double]); [size_t] is a 64-bit unsigned integer whose
      wrap-around is written out, and pointers are compared as the 64-bit
      byte addresses they are.
    - Member functions that write through a pointer or throw are
      computations over the heap: they return a result (a value or the
      exception thrown) together with the heap they leave behind.
    - The member functions of [Vector_Ref] and [Matrix_Ref] are defined in
      the header and are embedded from it.  The member functions of
      [Parameters] and [Parameter_Value::compatible_copy] are only declared
      there; their models are marked as such. *)

From Stdlib Require Import ZArith Lia List String Bool.
From Stdlib Require Import Floats.SpecFloat.
From stdpp Require Import gmap strings list.

Local Open Scope Z_scope.

(* ===================================================================== *)
(** ** Machine integers *)

(** [size_t] on the 64-bit targets of the library. *)
Definition size_t_bits : Z := 64.

(** Conversion of an integer to [size_t]; this is also what the usual
    arithmetic conversions do to the [ptrdiff_t] operand of a comparison
    with a [size_t]. *)
Definition to_size_t (z : Z) : Z := z mod 2 ^ size_t_bits.

(** The values a [size_t] object can hold. *)
Definition is_size_t (z : Z) : Prop := 0 <= z < 2 ^ size_t_bits.

(* ===================================================================== *)
(** ** Element types and scalar values *)

(** The two element types the interface is written for. *)
Inductive precision : Type := Float | Double.

Definition precision_eqb (p q : precision) : bool :=
  match p, q with
  | Float, Float | Double, Double => true
  | _, _ => false
  end.

(** [sizeof(float)] and [sizeof(double)]. *)
Definition sizeof (p : precision) : Z :=
  match p with
  | Float => 4
  | Double => 8
  end.

(** The value of a pointer to the element at address [a] of the heap of
    [p]: a byte address of [size_t_bits] bits.  Pointer arithmetic and
    pointer comparison act on these values, so an element address that has
    left the address space comes back into it. *)
Definition pointer (p : precision) (a : Z) : Z :=
  (sizeof p * a) mod 2 ^ size_t_bits.

(** The number of elements of type [p] the address space holds. *)
Definition address_space (p : precision) : Z := 2 ^ size_t_bits / sizeof p.

(** The values stored in buffers, with the two implicit conversions that
    [std::copy] performs between buffers of different element types. *)
Class Scalar : Type := {
  scalar : Type;
  narrow : scalar -> scalar;  (* [(float) x] for a [double] x *)
  widen : scalar -> scalar    (* [(double) x] for a [float] x *)
}.

(** IEEE-754 values, as specified by the standard library: conversion to
    a format rounds a finite value to nearest-even in that format. *)
Definition ieee_round (prec emax : Z) (x : spec_float) : spec_float :=
  match x with
  | S754_finite s m e => binary_round prec emax s m e
  | _ => x
  end.

Definition ieee : Scalar :=
  {| scalar := spec_float;
     narrow := ieee_round 24 128;
     widen := ieee_round 53 1024 |}.

(* ===================================================================== *)
(** ** Exceptions and computations *)

(** The error taxonomy of the specification. *)
Inductive error_kind : Type :=
  | SizeMismatch
  | ShapeMismatch
  | DuplicateIndex
  | DuplicateName
  | NotFound
  | NameMismatch.

(** [ML::Exception]: the header throws it with a message; [kind] is the
    class the specification files the throw site under. *)
Record Exception : Type := { kind : error_kind; what : string }.

Inductive result (A : Type) : Type :=
  | Ok (a : A)
  | Throw (e : Exception).
Arguments Ok {A} a.
Arguments Throw {A} e.

Definition is_Throw {A} (r : result A) : bool :=
  match r with Ok _ => false | Throw _ => true end.

(** A computation over a state [S]: it ends with a value or an exception,
    and with the state it has reached by then. *)
Definition Eff (S A : Type) : Type := S -> result A * S.

#[global] Instance Eff_ret {S} : MRet (Eff S) := fun A a s => (Ok a, s).

#[global] Instance Eff_bind {S} : MBind (Eff S) := fun A B k c s =>
  match c s with
  | (Ok a, s') => k a s'
  | (Throw e, s') => (Throw e, s')
  end.

Definition throw {S A} (e : Exception) : Eff S A := fun s => (Throw e, s).

Definition modify {S} (f : S -> S) : Eff S unit := fun s => (Ok tt, f s).

Definition get {S} : Eff S S := fun s => (Ok s, s).

(* ===================================================================== *)
(** ** The parameter tree *)

(** [Parameter_Value] and its subclasses.  A view records the element type
    [Underlying] of the buffer it points into, its address [array_] and its
    dimensions; a [Parameters] object owns its children [params], kept in
    ascending index order, and the table [by_name]. *)
#[warnings="-register-all"]
Inductive Parameter_Value : Type :=
  | Vector_Ref (name_ : string) (Underlying : precision)
               (array_ : Z) (size_ : Z)
  | Matrix_Ref (name_ : string) (Underlying : precision)
               (array_ : Z) (size1_ size2_ : Z)
  | Parameters (name_ : string) (by_name : gmap string Z)
               (params : list (Z * Parameter_Value)).

(** [Parameter_Value::name]. *)
Definition name (this : Parameter_Value) : string :=
  match this with
  | Vector_Ref name_ _ _ _ => name_
  | Matrix_Ref name_ _ _ _ _ => name_
  | Parameters name_ _ _ => name_
  end.

(** The leaves: the objects whose class is defined in the header. *)
Definition is_leaf (this : Parameter_Value) : bool :=
  match this with
  | Parameters _ _ _ => false
  | _ => true
  end.

(** Every dimension of every view of the tree is a [size_t]. *)
Fixpoint size_t_fields (this : Parameter_Value) : Prop :=
  match this with
  | Vector_Ref _ _ _ size_ => is_size_t size_
  | Matrix_Ref _ _ _ size1_ size2_ => is_size_t size1_ /\ is_size_t size2_
  | Parameters _ _ params =>
      fold_right (fun child rest => size_t_fields child.2 /\ rest) True params
  end.

(** The dimensions of a view: one for a vector, two for a matrix. *)
Definition dimensions (this : Parameter_Value) : list Z :=
  match this with
  | Vector_Ref _ _ _ size_ => [size_]
  | Matrix_Ref _ _ _ size1_ size2_ => [size1_; size2_]
  | Parameters _ _ _ => []
  end.

(** The buffer a view points into: its element type and its address. *)
Definition storage (this : Parameter_Value) : option (precision * Z) :=
  match this with
  | Vector_Ref _ Underlying array_ _ => Some (Underlying, array_)
  | Matrix_Ref _ Underlying array_ _ _ => Some (Underlying, array_)
  | Parameters _ _ _ => None
  end.

(** [Vector_Ref::parameter_count]. *)
Definition Vector_Ref_parameter_count (size_ : Z) : Z := size_.

(** [Matrix_Ref::parameter_count]: a product of two [size_t]. *)
Definition Matrix_Ref_parameter_count (size1_ size2_ : Z) : Z :=
  to_size_t (size1_ * size2_).

(** Sum of the counts of a child list, given the count of one child. *)
Definition sum_counts (count : Parameter_Value -> Z)
    (params : list (Z * Parameter_Value)) : Z :=
  fold_right (fun child acc => count child.2 + acc) 0 params.

(** Modelled from the spec: [Parameters::parameter_count] is declared in the
    header and defined elsewhere; it is the sum of the counts of the
    children, each obtained by the virtual call [count]. *)
Definition Parameters_parameter_count (count : Parameter_Value -> Z)
    (params : list (Z * Parameter_Value)) : Z :=
  sum_counts count params.

(** [Parameter_Value::parameter_count]: the virtual call, resolved on the
    class of the object. *)
Fixpoint parameter_count (this : Parameter_Value) : Z :=
  match this with
  | Vector_Ref _ _ _ size_ => Vector_Ref_parameter_count size_
  | Matrix_Ref _ _ _ size1_ size2_ => Matrix_Ref_parameter_count size1_ size2_
  | Parameters _ _ params => Parameters_parameter_count parameter_count params
  end.

(** The cells of the leaves in flattening order: element type and
    address of every scalar the tree refers to. *)
Definition cells_from (Underlying : precision) (array_ : Z) (n : Z)
    : list (precision * Z) :=
  map (fun i : nat => (Underlying, array_ + Z.of_nat i)) (seq 0 (Z.to_nat n)).

Fixpoint cells (this : Parameter_Value) : list (precision * Z) :=
  match this with
  | Vector_Ref _ Underlying array_ _ =>
      cells_from Underlying array_ (parameter_count this)
  | Matrix_Ref _ Underlying array_ _ _ =>
      cells_from Underlying array_ (parameter_count this)
  | Parameters _ _ params => flat_map (fun child => cells child.2) params
  end.

(** The child registered at [index], if any. *)
Fixpoint child_at (index : Z) (params : list (Z * Parameter_Value))
    : option Parameter_Value :=
  match params with
  | [] => None
  | child :: params' =>
      if child.1 =? index then Some child.2 else child_at index params'
  end.

(** Insertion of a child at its place in ascending index order. *)
Fixpoint insert_child (index : Z) (param : Parameter_Value)
    (params : list (Z * Parameter_Value)) : list (Z * Parameter_Value) :=
  match params with
  | [] => [(index, param)]
  | child :: params' =>
      if index <? child.1 then (index, param) :: params
      else child :: insert_child index param params'
  end.

(** The two tables of a [Parameters] object, the state its registration
    functions act on. *)
Record tables : Type := {
  by_name : gmap string Z;
  params : list (Z * Parameter_Value)
}.

(** The invariant of the two tables: [by_name] files a name under an index
    exactly when the child registered at that index bears the name. *)
Definition tables_agree (this : tables) : Prop :=
  forall n j,
    by_name this !! n = Some j
    <-> exists child, child_at j (params this) = Some child /\ name child = n.

(** Modelled from the spec: [Parameters::add] of an index and a child is
    declared in the header and defined elsewhere.  It refuses an occupied
    index with DuplicateIndex, refuses a name that [by_name] files under a
    different index with DuplicateName, and otherwise registers the child
    in both tables.  The specification fixes no message for these throws. *)
Definition add (index : Z) (param : Parameter_Value) : Eff tables unit :=
  this ← get;
  if bool_decide (is_Some (child_at index (params this)))
  then throw {| kind := DuplicateIndex; what := EmptyString |}
  else
    match by_name this !! name param with
    | Some other =>
        if negb (other =? index)
        then throw {| kind := DuplicateName; what := EmptyString |}
        else modify (fun _ =>
               {| by_name := <[name param := index]> (by_name this);
                  params := insert_child index param (params this) |})
    | None =>
        modify (fun _ =>
          {| by_name := <[name param := index]> (by_name this);
             params := insert_child index param (params this) |})
    end.

(* ===================================================================== *)
(** ** Buffers and the operations on them *)

Section Model.
Context `{Scalar}.

(** The implicit conversion of an element of type [from] stored into an
    element of type [to]. *)
Definition convert (from to : precision) (x : scalar) : scalar :=
  match from, to with
  | Double, Float => narrow x
  | Float, Double => widen x
  | _, _ => x
  end.

(** One heap per element type, addressed by element. *)
Definition memory : Type := precision -> Z -> scalar.

Definition store (p : precision) (a : Z) (v : scalar) (m : memory) : memory :=
  fun q b => if precision_eqb p q && (a =? b) then v else m q b.

(** The elements of [[first, first + n)] in the heap of [p]. *)
Definition load_range (p : precision) (first : Z) (n : Z) (m : memory)
    : list scalar :=
  map (fun i : nat => m p (first + Z.of_nat i)) (seq 0 (Z.to_nat n)).

(** Assignment of [values] to the successive elements from [d_first]. *)
Fixpoint assign_range (to : precision) (d_first : Z) (values : list scalar)
    (m : memory) : memory :=
  match values with
  | [] => m
  | v :: values' => assign_range to (d_first + 1) values' (store to d_first v m)
  end.

(** [memmove] of [count] elements of type [p]: the block is read as it
    stands before the call and then written, so the two may overlap. *)
Definition memmove (p : precision) (dest src : Z) (count : nat) (m : memory)
    : memory :=
  assign_range p dest (load_range p src (Z.of_nat count) m) m.

(** The loop of [std::copy]: element after element, from the first, each
    converted as it is assigned. *)
Fixpoint copy_loop (from : precision) (first : Z) (count : nat)
    (to : precision) (d_first : Z) (m : memory) : memory :=
  match count with
  | O => m
  | S count' =>
      copy_loop from (first + 1) count' to (d_first + 1)
        (store to d_first (convert from to (m from first)) m)
  end.

(** [std::copy(first, first + count, d_first)] from a buffer of element
    type [from] to one of element type [to].  Between buffers of one
    element type the library moves the block with [memmove], the elements
    being trivially copyable; between buffers of different element types it
    runs the loop. *)
Definition std_copy (from : precision) (first : Z) (count : nat)
    (to : precision) (d_first : Z) (m : memory) : memory :=
  if precision_eqb from to
  then memmove to d_first first count m
  else copy_loop from first count to d_first m.

(** [Vector_Ref<Underlying>::copy_to(Float * where, Float * limit)], for
    [Float] either element type.  [limit - where] is a [ptrdiff_t] and is
    converted to [size_t] for the comparison with [size_]. *)
Definition Vector_Ref_copy_to (Underlying : precision) (array_ size_ : Z)
    (Float_ : precision) (where_ limit : Z) : Eff memory Z :=
  if to_size_t (limit - where_) >? size_
  then throw {| kind := SizeMismatch; what := "copy_to(): wrong size array" |}
  else
    modify (std_copy Underlying array_ (Z.to_nat size_) Float_ where_);;
    mret (where_ + size_).

(** [Matrix_Ref<Underlying>::copy_to(Float * where, Float * limit)]. *)
Definition Matrix_Ref_copy_to (Underlying : precision)
    (array_ size1_ size2_ : Z)
    (Float_ : precision) (where_ limit : Z) : Eff memory Z :=
  let n := Matrix_Ref_parameter_count size1_ size2_ in
  if to_size_t (limit - where_) >? n
  then throw {| kind := SizeMismatch; what := "copy_to(): wrong size matrix" |}
  else
    modify (std_copy Underlying array_ (Z.to_nat n) Float_ where_);;
    mret (where_ + n).

(** [Vector_Ref<Underlying>::compatible_ref(Float * first, Float * last)]:
    [first + size_] and [last] are compared as pointers. *)
Definition Vector_Ref_compatible_ref (name_ : string) (size_ : Z)
    (Float_ : precision) (first last : Z) : Eff memory Parameter_Value :=
  if negb (pointer Float_ (first + size_) =? pointer Float_ last)
  then throw {| kind := SizeMismatch;
                what := "Vector_Ref::compatible_ref(): wrong size" |}
  else mret (Vector_Ref name_ Float_ first size_).

(** [Matrix_Ref<Underlying>::compatible_ref(Float * first, Float * last)]. *)
Definition Matrix_Ref_compatible_ref (name_ : string) (size1_ size2_ : Z)
    (Float_ : precision) (first last : Z) : Eff memory Parameter_Value :=
  let n := Matrix_Ref_parameter_count size1_ size2_ in
  if negb (pointer Float_ (first + n) =? pointer Float_ last)
  then throw {| kind := SizeMismatch;
                what := "Matrix_Ref::compatible_ref(): wrong size" |}
  else mret (Matrix_Ref name_ Float_ first size1_ size2_).

(** The children of a composite visited in order with a cursor: each child
    is handed the cursor and returns the advanced one. *)
Definition append_children (f : Parameter_Value -> Z -> Eff memory Z)
    : list (Z * Parameter_Value) -> Z -> Eff memory Z :=
  fix go l cur :=
    match l with
    | [] => mret cur
    | child :: l' => cur' ← f child.2 cur; go l' cur'
    end.

(** Modelled from the spec: [Parameters::copy_to] is declared in the header
    and defined elsewhere.  It fails with SizeMismatch when the destination
    is too short for the tree, and otherwise concatenates the children's
    [copy_to] depth first in ascending index order: each child writes at
    the cursor the child before it returned, into what is left of the
    caller's destination.  [copy_to] is the virtual call on a child. *)
Definition Parameters_copy_to
    (copy_to : Parameter_Value -> precision -> Z -> Z -> Eff memory Z)
    (params : list (Z * Parameter_Value))
    (Float_ : precision) (where_ limit : Z) : Eff memory Z :=
  if limit - where_ <? sum_counts parameter_count params
  then throw {| kind := SizeMismatch; what := EmptyString |}
  else
    append_children (fun child cur => copy_to child Float_ cur limit)
      params where_.

(** [Parameter_Value::copy_to]: the virtual call, resolved on the class of
    the object. *)
Fixpoint copy_to (this : Parameter_Value) (Float_ : precision)
    (where_ limit : Z) : Eff memory Z :=
  match this with
  | Vector_Ref _ Underlying array_ size_ =>
      Vector_Ref_copy_to Underlying array_ size_ Float_ where_ limit
  | Matrix_Ref _ Underlying array_ size1_ size2_ =>
      Matrix_Ref_copy_to Underlying array_ size1_ size2_ Float_ where_ limit
  | Parameters _ _ params =>
      Parameters_copy_to copy_to params Float_ where_ limit
  end.

(** The children of a composite rebuilt in order over successive slices:
    each child is handed the start of its slice. *)
Definition ref_children
    (f : Parameter_Value -> Z -> Eff memory Parameter_Value)
    : list (Z * Parameter_Value) -> Z ->
      Eff memory (list (Z * Parameter_Value)) :=
  fix go l cur :=
    match l with
    | [] => mret []
    | child :: l' =>
        child' ← f child.2 cur;
        rest ← go l' (cur + parameter_count child.2);
        mret ((child.1, child') :: rest)
    end.

(** Modelled from the spec: [Parameters::compatible_ref] is declared in the
    header and defined elsewhere.  It fails with SizeMismatch when the
    length of the range differs from the count of the tree, and otherwise
    builds a tree of the same names and indices whose leaves alias
    successive slices of the range, cut with the per-leaf sizes of the
    flattening.  [compatible_ref] is the virtual call on a child. *)
Definition Parameters_compatible_ref
    (compatible_ref :
       Parameter_Value -> precision -> Z -> Z -> Eff memory Parameter_Value)
    (name_ : string) (by_name : gmap string Z)
    (params : list (Z * Parameter_Value))
    (Float_ : precision) (first last : Z) : Eff memory Parameter_Value :=
  if negb (first + sum_counts parameter_count params =? last)
  then throw {| kind := SizeMismatch; what := EmptyString |}
  else
    children ←
      ref_children
        (fun child cur =>
           compatible_ref child Float_ cur (cur + parameter_count child))
        params first;
    mret (Parameters name_ by_name children).

(** [Parameter_Value::compatible_ref]: the virtual call, resolved on the
    class of the object. *)
Fixpoint compatible_ref (this : Parameter_Value) (Float_ : precision)
    (first last : Z) : Eff memory Parameter_Value :=
  match this with
  | Vector_Ref name_ _ _ size_ =>
      Vector_Ref_compatible_ref name_ size_ Float_ first last
  | Matrix_Ref name_ _ _ size1_ size2_ =>
      Matrix_Ref_compatible_ref name_ size1_ size2_ Float_ first last
  | Parameters name_ by_name params =>
      Parameters_compatible_ref compatible_ref name_ by_name params
        Float_ first last
  end.

(** Modelled from the spec: [Parameter_Value::compatible_copy] and its
    override in [Parameters] are declared in the header and defined
    elsewhere.  The header documents them as [compatible_ref] with the given
    range initialized with the current values via [copy_to]. *)
Definition compatible_copy (this : Parameter_Value) (Float_ : precision)
    (first last : Z) : Eff memory Parameter_Value :=
  result ← compatible_ref this Float_ first last;
  copy_to this Float_ first last;;
  mret result.

(** The children of a composite destroyed in order. *)
Definition destroy_children (destroy : Parameter_Value -> Eff memory unit)
    : list (Z * Parameter_Value) -> Eff memory unit :=
  fix go l :=
    match l with
    | [] => mret tt
    | child :: l' => destroy child.2;; go l'
    end.

(** The destructor of an object.  [~Parameter_Value] has an empty body in
    the header and no subclass declares one of its own: destroying a view
    releases the view and leaves the buffer it points into alone, and
    destroying a [Parameters] object destroys the children its [ptr_vector]
    owns. *)
Fixpoint destroy (this : Parameter_Value) : Eff memory unit :=
  match this with
  | Parameters _ _ params => destroy_children destroy params
  | _ => mret tt
  end.

(** Modelled from the spec: [Parameters::clear] is declared in the header
    and defined elsewhere.  It releases the owned child objects and drops
    both tables of the object. *)
Definition clear : Eff (tables * memory) unit :=
  fun s =>
    match destroy_children destroy (params s.1) s.2 with
    | (Ok _, m) => (Ok tt, ({| by_name := ∅; params := [] |}, m))
    | (Throw e, m) => (Throw e, (s.1, m))
    end.

(** What [copy_to] does on a destination of exactly the count of the tree
    that shares no cell with the tree: it returns the end of the
    destination, writes nowhere else, and leaves in the destination the
    converted values of the cells of the tree, in flattening order. *)
Definition flattens_into (this : Parameter_Value) : Prop :=
  forall Float_ where_ limit m,
    limit - where_ = parameter_count this ->
    (forall a, where_ <= a < limit -> ~ In (Float_, a) (cells this)) ->
    exists m',
      copy_to this Float_ where_ limit m = (Ok limit, m') /\
      (forall p a, ~ (p = Float_ /\ where_ <= a < limit) -> m' p a = m p a) /\
      load_range Float_ where_ (parameter_count this) m'
      = map (fun c : precision * Z => convert c.1 Float_ (m c.1 c.2))
          (cells this).

End Model.

(* ===================================================================== *)
(** ** Bulk arithmetic *)

(** The per-leaf partition of a tree: the counts of its leaves, in
    flattening order. *)
Fixpoint leaf_sizes (this : Parameter_Value) : list Z :=
  match this with
  | Parameters _ _ params => flat_map (fun child => leaf_sizes child.2) params
  | _ => [parameter_count this]
  end.


(** Identical shape: the same per-leaf partition, hence the same count. *)
Definition same_shape (this other : Parameter_Value) : bool :=
  bool_decide (leaf_sizes this = leaf_sizes other).

(** The arithmetic of [double]: sum, product, and the constants 0 and 1. *)
Class Arithmetic `{Scalar} : Type := {
  s_add : scalar -> scalar -> scalar;
  s_mul : scalar -> scalar -> scalar;
  s_zero : scalar;
  s_one : scalar
}.

(** IEEE-754 binary64 arithmetic, rounding to nearest-even. *)
Definition ieee_arithmetic : @Arithmetic ieee :=
  @Build_Arithmetic ieee
    (SFadd 53 1024)
    (SFmul 53 1024)
    (S754_zero false)
    (S754_finite false 4503599627370496 (-52)).

Section Arithmetic.
Context `{Arithmetic}.

(** [x += rate * y] for [x] of element type [p], [y] of element type [q]
    and a [double] rate: the operands are converted to [double], product
    and sum are formed in [double], and the result is converted to [p]. *)
Definition axpy (p q : precision) (rate x y : scalar) : scalar :=
  convert Double p
    (s_add (convert p Double x) (s_mul rate (convert q Double y))).


(** The flattened scalar sequence of a tree: the values of its cells, in
    flattening order, as [double]s. *)
Definition flattened (this : Parameter_Value) (m : memory) : list scalar :=
  (fun c : precision * Z => convert c.1 Double (m c.1 c.2)) <$> cells this.

(** Assignment of a sequence of [double]s to a sequence of cells, position
    by position, each value converted to the element type of its cell. *)
Fixpoint assign_cells (cs : list (precision * Z)) (values : list scalar)
    (m : memory) : memory :=
  match cs, values with
  | c :: cs', v :: values' =>
      assign_cells cs' values' (store c.1 c.2 (convert Double c.1 v) m)
  | _, _ => m
  end.

(** Modelled from the spec: [Parameters::update] is declared in the header
    and defined elsewhere.  It fails with ShapeMismatch when the two trees
    differ in shape; otherwise it operates on the flattened scalar
    sequences of the two trees and leaves [x + learning_rate * y] at every
    position of this tree, [x] and [y] being the values the two trees held
    at that position. *)
Definition update (this other : Parameter_Value) (learning_rate : scalar)
    : Eff memory unit :=
  if negb (same_shape this other)
  then throw {| kind := ShapeMismatch; what := EmptyString |}
  else
    modify (fun m =>
      assign_cells (cells this)
        (zip_with (fun x y => s_add x (s_mul learning_rate y))
           (flattened this m) (flattened other m)) m).


End Arithmetic.

(* ===================================================================== *)
(** ** Sample buffers *)

(** A heap whose [float] buffer holds 1, 2, 3, ... from address 0 on and
    whose [double] buffer is zeroed. *)
Definition counting_memory : @memory ieee :=
  fun p a =>
    match p with
    | Float => binary_normalize 24 128 (a + 1) 0 false
    | Double => S754_zero false
    end.

(** The [double] nearest to one tenth. *)
Definition tenth : spec_float := S754_finite false 7205759403792794 (-56).

(** A heap whose [double] buffer holds one tenth everywhere. *)
Definition tenth_memory : @memory ieee :=
  fun p _ =>
    match p with
    | Float => S754_zero false
    | Double => tenth
    end.

(** A vector view of the first two [float]s. *)
Definition sample_vector : Parameter_Value := Vector_Ref "w" Float 0 2.

(** A composite of a [float] vector and a [double] matrix. *)
Definition sample_tree : Parameter_Value :=
  Parameters "net" (<["b"%string := 1]> {["a"%string := 0]})
    [(0, Vector_Ref "a" Float 0 2); (1, Matrix_Ref "b" Double 0 2 2)].

(** The [double] one. *)
Definition one : spec_float := S754_finite false 4503599627370496 (-52).






(** The tables of a composite with one child, "a" at index 0. *)
Definition sample_tables : tables :=
  {| by_name := {["a"%string := 0]};
     params := [(0, Vector_Ref "a" Float 0 2)] |}.

(* ===================================================================== *)
(** ** Facts about machine integers, stores and [std::copy] *)

Lemma precision_eqb_eq (p q : precision) : precision_eqb p q = true <-> p = q.
Proof. destruct p, q; simpl; split; congruence. Qed.

Lemma to_size_t_id (z : Z) : is_size_t z -> to_size_t z = z.
Proof. unfold is_size_t, to_size_t. intros Hz. apply Z.mod_small. exact Hz. Qed.

Lemma to_size_t_is_size_t (z : Z) : is_size_t (to_size_t z).
Proof.
  unfold is_size_t, to_size_t, size_t_bits. apply Z.mod_pos_bound. lia.
Qed.

Lemma map_seq_from {A} (f : nat -> A) (a n : nat) :
  map f (seq a n) = map (fun i => f (a + i)%nat) (seq 0 n).
Proof.
  revert f a. induction n as [|n IH]; intros f a; [reflexivity|].
  cbn [seq map]. f_equal; [f_equal; lia|].
  rewrite IH, (IH _ 1%nat). apply map_ext. intros i. f_equal. lia.
Qed.

(** Pointers to element addresses that differ by less than the address
    space are equal only when the addresses are. *)
Lemma pointer_eq_bounded p a b :
  pointer p a = pointer p b ->
  - address_space p < a - b < address_space p ->
  a = b.
Proof.
  unfold pointer, address_space, size_t_bits. intros Heq Hnear.
  pose proof (Z.div_mod (sizeof p * a) (2 ^ 64)) as Ha.
  pose proof (Z.div_mod (sizeof p * b) (2 ^ 64)) as Hb.
  rewrite Heq in Ha.
  destruct p; cbn [sizeof] in *;
    change (2 ^ 64) with 18446744073709551616 in *;
    [change (18446744073709551616 / 4) with 4611686018427387904 in *
    |change (18446744073709551616 / 8) with 2305843009213693952 in *];
    lia.
Qed.

Lemma pointer_eqb_refl p a : (pointer p a =? pointer p a) = true.
Proof. apply Z.eqb_refl. Qed.

Section Heap.
Context `{Scalar}.
Implicit Types (m : memory) (p q from to : precision).

Lemma store_same p a v m : store p a v m p a = v.
Proof.
  unfold store. replace (precision_eqb p p) with true
    by (symmetry; apply precision_eqb_eq; reflexivity).
  rewrite Z.eqb_refl. reflexivity.
Qed.

Lemma store_other p a v m q b : (p, a) <> (q, b) -> store p a v m q b = m q b.
Proof.
  intros Hne. unfold store.
  destruct (precision_eqb p q) eqn:Hp; [|reflexivity].
  destruct (a =? b) eqn:Ha; [|reflexivity].
  apply precision_eqb_eq in Hp. apply Z.eqb_eq in Ha. congruence.
Qed.

Lemma copy_loop_outside from to count : forall first d_first m q b,
  (q = to -> b < d_first \/ d_first + Z.of_nat count <= b) ->
  copy_loop from first count to d_first m q b = m q b.
Proof.
  induction count as [|count IH]; intros first d_first m q b Hout; [reflexivity|].
  cbn [copy_loop]. rewrite IH by (intros Hq; specialize (Hout Hq); lia).
  apply store_other. intros [= -> ->]. specialize (Hout eq_refl). lia.
Qed.

(** An element of the destination ends as the conversion of its source
    element as soon as no earlier assignment of the loop hit that source
    element. *)
Lemma copy_loop_inside from to count : forall first d_first m i,
  (forall i j, 0 <= j < i -> i < Z.of_nat count ->
               (to, d_first + j) <> (from, first + i)) ->
  0 <= i < Z.of_nat count ->
  copy_loop from first count to d_first m to (d_first + i)
  = convert from to (m from (first + i)).
Proof.
  induction count as [|count IH]; intros first d_first m i Hsep Hi; [lia|].
  cbn [copy_loop].
  destruct (Z.eq_dec i 0) as [->|Hnz].
  - rewrite copy_loop_outside by (intros _; lia).
    rewrite !Z.add_0_r. apply store_same.
  - replace (d_first + i) with (d_first + 1 + (i - 1)) by lia.
    rewrite IH; [| |lia].
    + replace (first + 1 + (i - 1)) with (first + i) by lia.
      rewrite store_other; [reflexivity|].
      replace d_first with (d_first + 0) by lia. apply Hsep; lia.
    + intros i' j' Hj' Hi'.
      replace (d_first + 1 + j') with (d_first + (j' + 1)) by lia.
      replace (first + 1 + i') with (first + (i' + 1)) by lia.
      apply Hsep; lia.
Qed.

(** The loop over a range is the loop over its head followed by the loop
    over its tail. *)
Lemma copy_loop_app from to n1 n2 : forall first d_first m,
  copy_loop from first (n1 + n2) to d_first m
  = copy_loop from (first + Z.of_nat n1) n2 to (d_first + Z.of_nat n1)
      (copy_loop from first n1 to d_first m).
Proof.
  induction n1 as [|n1 IH]; intros first d_first m.
  - cbn [Nat.add copy_loop]. change (Z.of_nat 0) with 0.
    rewrite !Z.add_0_r. reflexivity.
  - cbn [Nat.add copy_loop]. rewrite IH.
    replace (first + 1 + Z.of_nat n1) with (first + Z.of_nat (S n1)) by lia.
    replace (d_first + 1 + Z.of_nat n1) with (d_first + Z.of_nat (S n1))
      by lia.
    reflexivity.
Qed.

Lemma assign_range_outside to values : forall d_first m q b,
  (q = to -> b < d_first \/ d_first + Z.of_nat (length values) <= b) ->
  assign_range to d_first values m q b = m q b.
Proof.
  induction values as [|v values IH]; intros d_first m q b Hout;
    [reflexivity|].
  cbn [assign_range length] in *.
  rewrite IH by (intros Hq; specialize (Hout Hq); lia).
  apply store_other. intros [= -> ->]. specialize (Hout eq_refl). lia.
Qed.

Lemma assign_range_inside to (f : nat -> scalar) n : forall k d_first m i,
  (i < n)%nat ->
  assign_range to d_first (map f (seq k n)) m to (d_first + Z.of_nat i)
  = f (k + i)%nat.
Proof.
  induction n as [|n IH]; intros k d_first m i Hi; [lia|].
  cbn [seq map assign_range]. destruct i as [|i].
  - rewrite assign_range_outside by (intros _; lia).
    change (Z.of_nat 0) with 0. rewrite Z.add_0_r, Nat.add_0_r.
    apply store_same.
  - replace (d_first + Z.of_nat (S i)) with (d_first + 1 + Z.of_nat i) by lia.
    rewrite IH by lia. f_equal. lia.
Qed.

Lemma assign_range_app to values1 values2 : forall d_first m,
  assign_range to d_first (values1 ++ values2) m
  = assign_range to (d_first + Z.of_nat (length values1)) values2
      (assign_range to d_first values1 m).
Proof.
  induction values1 as [|v values1 IH]; intros d_first m.
  - cbn. rewrite Z.add_0_r. reflexivity.
  - cbn [app assign_range length]. rewrite IH. f_equal. lia.
Qed.

Lemma length_load_range p first n m :
  length (load_range p first n m) = Z.to_nat n.
Proof. unfold load_range. rewrite length_map, length_seq. reflexivity. Qed.

(** [std::copy] assigns to the destination range and to nothing else. *)
Lemma std_copy_outside from to count first d_first m q b :
  (q = to -> b < d_first \/ d_first + Z.of_nat count <= b) ->
  std_copy from first count to d_first m q b = m q b.
Proof.
  intros Hout. unfold std_copy, memmove.
  destruct (precision_eqb from to); [|apply copy_loop_outside; exact Hout].
  apply assign_range_outside.
  rewrite length_load_range, Nat2Z.id. exact Hout.
Qed.

(** Every destination element ends as the conversion of the value its
    source element held before the call. *)
Lemma std_copy_delivers from to count first d_first m i :
  0 <= i < Z.of_nat count ->
  std_copy from first count to d_first m to (d_first + i)
  = convert from to (m from (first + i)).
Proof.
  intros Hi. unfold std_copy, memmove.
  destruct (precision_eqb from to) eqn:Hsame.
  - apply precision_eqb_eq in Hsame as ->.
    unfold load_range. rewrite Nat2Z.id.
    replace i with (Z.of_nat (Z.to_nat i)) at 1 by lia.
    rewrite assign_range_inside by lia.
    replace (Z.of_nat (0 + Z.to_nat i)) with i by lia.
    destruct to; reflexivity.
  - apply copy_loop_inside; [|exact Hi].
    intros i' j' _ _ [= Heq _]. subst to.
    assert (precision_eqb from from = true) by (apply precision_eqb_eq; auto).
    congruence.
Qed.

Lemma std_copy_nothing from to first d_first m :
  std_copy from first 0 to d_first m = m.
Proof. unfold std_copy. destruct (precision_eqb from to); reflexivity. Qed.

Lemma load_range_app p first n1 n2 m :
  0 <= n1 -> 0 <= n2 ->
  load_range p first (n1 + n2) m
  = load_range p first n1 m ++ load_range p (first + n1) n2 m.
Proof.
  intros H1 H2. unfold load_range.
  rewrite Z2Nat.inj_add, seq_app, map_app by lia. f_equal.
  rewrite map_seq_from. apply map_ext. intros i.
  f_equal. lia.
Qed.

Lemma load_range_ext p first n m m' :
  (forall a, first <= a < first + n -> m' p a = m p a) ->
  load_range p first n m' = load_range p first n m.
Proof.
  intros Hagree. unfold load_range. apply map_ext_in. intros i Hi.
  apply in_seq in Hi. apply Hagree. lia.
Qed.

(** [std::copy] of a range is [std::copy] of its head followed by
    [std::copy] of its tail, unless the destination is of the element type
    of the source and starts inside the source range. *)
Lemma std_copy_split from to n1 n2 first d_first m :
  (from = to ->
   d_first <= first \/ first + Z.of_nat (n1 + n2) <= d_first) ->
  std_copy from first (n1 + n2) to d_first m
  = std_copy from (first + Z.of_nat n1) n2 to (d_first + Z.of_nat n1)
      (std_copy from first n1 to d_first m).
Proof.
  intros Hsep. unfold std_copy, memmove.
  destruct (precision_eqb from to) eqn:Hsame; [|apply copy_loop_app].
  apply precision_eqb_eq in Hsame. specialize (Hsep Hsame).
  rewrite Nat2Z.inj_add, load_range_app, assign_range_app by lia.
  rewrite length_load_range, Nat2Z.id. f_equal.
  symmetry. apply load_range_ext. intros b Hb.
  apply assign_range_outside. intros _.
  rewrite length_load_range, Nat2Z.id. lia.
Qed.

End Heap.

(* ===================================================================== *)
(** ** The views: [Vector_Ref] and [Matrix_Ref] *)

Section Views.
Context `{Scalar}.
Implicit Types (this : Parameter_Value) (m : memory).

Lemma parameter_count_view_nonneg this :
  is_leaf this = true -> size_t_fields this -> is_size_t (parameter_count this).
Proof.
  destruct this; cbn; intros Hleaf Hfields; try discriminate.
  - exact Hfields.
  - apply to_size_t_is_size_t.
Qed.

(** [compatible_ref] of a view returns the heap it was given. *)
Lemma compatible_ref_view_heap this Float_ first last m :
  is_leaf this = true -> (compatible_ref this Float_ first last m).2 = m.
Proof.
  destruct this as [name_ U a size_|name_ U a size1_ size2_|];
    cbn; intros Hleaf; try discriminate.
  - unfold Vector_Ref_compatible_ref.
    destruct (_ =? _); reflexivity.
  - unfold Matrix_Ref_compatible_ref.
    destruct (_ =? _); reflexivity.
Qed.

(** The two outcomes of [compatible_ref] of a view: the exception, or a
    view of the same name and dimensions over the range. *)
Lemma compatible_ref_view_cases this Float_ first last m :
  is_leaf this = true ->
  exists e new,
    kind e = SizeMismatch /\
    is_leaf new = true /\
    name new = name this /\
    dimensions new = dimensions this /\
    storage new = Some (Float_, first) /\
    parameter_count new = parameter_count this /\
    (size_t_fields this -> size_t_fields new) /\
    compatible_ref this Float_ first last m
    = (if pointer Float_ (first + parameter_count this) =? pointer Float_ last
       then Ok new else Throw e, m).
Proof.
  destruct this as [name_ U a size_|name_ U a size1_ size2_|];
    intros Hleaf; try discriminate.
  - exists {| kind := SizeMismatch;
              what := "Vector_Ref::compatible_ref(): wrong size" |},
      (Vector_Ref name_ Float_ first size_).
    do 6 (split; [reflexivity|]). split; [auto|].
    cbn. unfold Vector_Ref_compatible_ref, Vector_Ref_parameter_count.
    destruct (_ =? _); reflexivity.
  - exists {| kind := SizeMismatch;
              what := "Matrix_Ref::compatible_ref(): wrong size" |},
      (Matrix_Ref name_ Float_ first size1_ size2_).
    do 6 (split; [reflexivity|]). split; [auto|].
    cbn. unfold Matrix_Ref_compatible_ref.
    destruct (_ =? _); reflexivity.
Qed.

(** [copy_to] of a view throws exactly when [limit - where], converted to
    [size_t], exceeds the count of the view. *)
Lemma copy_to_view_throws_iff this Float_ where_ limit m :
  is_leaf this = true ->
  is_Throw (copy_to this Float_ where_ limit m).1 = true
  <-> to_size_t (limit - where_) > parameter_count this.
Proof.
  destruct this as [name_ U a size_|name_ U a size1_ size2_|];
    cbn; intros Hleaf; try discriminate.
  - unfold Vector_Ref_copy_to, Vector_Ref_parameter_count.
    destruct (to_size_t (limit - where_) >? size_) eqn:Hguard; cbn.
    + apply Z.gtb_lt in Hguard. split; [lia|reflexivity].
    + rewrite Z.gtb_ltb in Hguard. apply Z.ltb_ge in Hguard.
      split; [discriminate|lia].
  - unfold Matrix_Ref_copy_to.
    destruct (to_size_t (limit - where_) >? _) eqn:Hguard; cbn.
    + apply Z.gtb_lt in Hguard. split; [lia|reflexivity].
    + rewrite Z.gtb_ltb in Hguard. apply Z.ltb_ge in Hguard.
      split; [discriminate|lia].
Qed.

(** Past its guard, [copy_to] of a view copies the elements of the view's
    buffer and returns the advanced cursor. *)
Lemma copy_to_view_past_guard this Underlying array_ Float_ where_ limit m :
  is_leaf this = true ->
  storage this = Some (Underlying, array_) ->
  (to_size_t (limit - where_) >? parameter_count this) = false ->
  copy_to this Float_ where_ limit m
  = (Ok (where_ + parameter_count this),
     std_copy Underlying array_ (Z.to_nat (parameter_count this))
       Float_ where_ m).
Proof.
  intros Hleaf Hstorage Hguard.
  destruct this; cbn in *; try discriminate; injection Hstorage as <- <-.
  - unfold Vector_Ref_copy_to. unfold Vector_Ref_parameter_count in Hguard.
    rewrite Hguard. reflexivity.
  - unfold Matrix_Ref_copy_to. rewrite Hguard. reflexivity.
Qed.

(** A [size_t] count is not exceeded by itself converted to [size_t]. *)
Lemma guard_false_on_exact_fit this where_ limit :
  is_leaf this = true ->
  size_t_fields this ->
  limit - where_ = parameter_count this ->
  (to_size_t (limit - where_) >? parameter_count this) = false.
Proof.
  intros Hleaf Hfields ->.
  rewrite to_size_t_id by (apply parameter_count_view_nonneg; assumption).
  rewrite Z.gtb_ltb. apply Z.ltb_irrefl.
Qed.

(** C1, as the header has it: on a destination whose capacity
    [limit - where] is short of the count [n] of the view, the guard
    [limit - where > n] is false; [copy_to] does not throw, runs [std::copy]
    over all [n] elements and returns [where + n], a cursor past [limit]. *)
Theorem copy_to_short_destination_overrun this Underlying array_ Float_
    where_ limit m :
  is_leaf this = true ->
  size_t_fields this ->
  storage this = Some (Underlying, array_) ->
  0 <= limit - where_ < parameter_count this ->
  copy_to this Float_ where_ limit m
  = (Ok (where_ + parameter_count this),
     std_copy Underlying array_ (Z.to_nat (parameter_count this))
       Float_ where_ m) /\
  limit < where_ + parameter_count this.
Proof.
  intros Hleaf Hfields Hstorage Hshort. split; [|lia].
  apply copy_to_view_past_guard; [exact Hleaf|exact Hstorage|].
  pose proof (parameter_count_view_nonneg this Hleaf Hfields) as Hn.
  rewrite to_size_t_id by (unfold is_size_t in *; lia).
  rewrite Z.gtb_ltb. apply Z.ltb_ge. lia.
Qed.

(** C2, as the header has it: on a destination whose capacity
    [limit - where] exceeds the count [n] of the view, the guard
    [limit - where > n] is true; [copy_to] throws SizeMismatch and writes
    nothing. *)
Theorem copy_to_long_destination_throws this Float_ where_ limit m :
  is_leaf this = true ->
  parameter_count this < limit - where_ < 2 ^ size_t_bits ->
  exists e,
    copy_to this Float_ where_ limit m = (Throw e, m) /\
    kind e = SizeMismatch.
Proof.
  intros Hleaf Hlong.
  assert ((to_size_t (limit - where_) >? parameter_count this) = true)
    as Hguard.
  { apply Z.gtb_lt.
    destruct (Z_lt_le_dec (limit - where_) 0) as [Hneg|Hpos].
    - pose proof (to_size_t_is_size_t (limit - where_)) as [Hlow _]. lia.
    - rewrite to_size_t_id by (unfold is_size_t; lia). lia. }
  destruct this as [name_ U a size_|name_ U a size1_ size2_|];
    cbn in *; try discriminate.
  - unfold Vector_Ref_copy_to. unfold Vector_Ref_parameter_count in Hguard.
    rewrite Hguard. eexists. split; reflexivity.
  - unfold Matrix_Ref_copy_to. rewrite Hguard. eexists. split; reflexivity.
Qed.

(** C10: a view whose count is [n] copies into a destination of capacity
    exactly [n] without throwing: the guard [limit - where > n] is strict,
    so [copy_to] returns the advanced cursor [where + n] after [std::copy]
    has copied the [n] elements of the view's buffer. *)
Theorem copy_to_accepts_exact_fit this Underlying array_ Float_
    where_ limit m :
  is_leaf this = true ->
  size_t_fields this ->
  storage this = Some (Underlying, array_) ->
  limit - where_ = parameter_count this ->
  copy_to this Float_ where_ limit m
  = (Ok (where_ + parameter_count this),
     std_copy Underlying array_ (Z.to_nat (parameter_count this))
       Float_ where_ m).
Proof.
  intros Hleaf Hfields Hstorage Hfit.
  apply copy_to_view_past_guard; [exact Hleaf|exact Hstorage|].
  apply guard_false_on_exact_fit; assumption.
Qed.

(** C3, as amended: [compatible_ref] of a view of count [n] on a range
    [[first, last)] leaves the heap as it was: nothing is copied, neither
    the range nor the buffer of the original view is written.  It throws
    exactly when [first + n] and [last] differ as pointers, and then with
    SizeMismatch; otherwise it returns a view of the same name and
    dimensions over the buffer that starts at [first].  When [n] and
    [last - first] differ by less than the number of elements the address
    space holds, it throws exactly when [last - first <> n], and the buffer
    of the view it returns ends at [last]. *)
Theorem compatible_ref_view this Float_ first last m :
  is_leaf this = true ->
  (compatible_ref this Float_ first last m).2 = m /\
  (is_Throw (compatible_ref this Float_ first last m).1 = true
   <-> pointer Float_ (first + parameter_count this) <> pointer Float_ last) /\
  (- address_space Float_ < last - first - parameter_count this
   < address_space Float_ ->
   (is_Throw (compatible_ref this Float_ first last m).1 = true
    <-> last - first <> parameter_count this)) /\
  (forall e, (compatible_ref this Float_ first last m).1 = Throw e ->
             kind e = SizeMismatch) /\
  (forall new, (compatible_ref this Float_ first last m).1 = Ok new ->
     is_leaf new = true /\
     name new = name this /\
     dimensions new = dimensions this /\
     storage new = Some (Float_, first) /\
     parameter_count new = parameter_count this /\
     pointer Float_ (first + parameter_count new) = pointer Float_ last /\
     (- address_space Float_ < last - first - parameter_count this
      < address_space Float_ ->
      first + parameter_count new = last)).
Proof.
  intros Hleaf.
  destruct (compatible_ref_view_cases this Float_ first last m Hleaf)
    as (e0 & new0 & Hkind & Hleaf0 & Hname & Hdims & Hstorage & Hcount & _
        & ->).
  destruct (pointer Float_ (first + parameter_count this) =? pointer Float_ last)
    eqn:Hptr; cbn [fst snd is_Throw].
  - apply Z.eqb_eq in Hptr.
    split; [reflexivity|]. split; [split; [discriminate|congruence]|].
    split.
    { intros Hnear. split; [discriminate|]. intros Hne. exfalso. apply Hne.
      pose proof (pointer_eq_bounded _ _ _ Hptr). lia. }
    split; [discriminate|]. intros new [= <-].
    do 5 (split; [assumption|]). rewrite Hcount. split; [exact Hptr|].
    intros Hnear. apply (pointer_eq_bounded Float_); [exact Hptr|lia].
  - apply Z.eqb_neq in Hptr.
    split; [reflexivity|]. split; [split; [auto|reflexivity]|].
    split.
    { intros _. split; [|reflexivity]. intros _ Heq. apply Hptr.
      f_equal. lia. }
    split; [intros e [= <-]; exact Hkind|]. discriminate.
Qed.

(** C9, as amended: [copy_to] of a view writes only to the destination
    cells [[where, where + n)] of the heap of the destination's element
    type, so every other cell, and with it every element of the view's own
    buffer outside that range, keeps its value; [compatible_ref] of a view
    writes to no cell at all. *)
Theorem view_writes_only_destination this Float_ where_ limit first last m :
  is_leaf this = true ->
  (forall p a,
     ~ (p = Float_ /\ where_ <= a < where_ + parameter_count this) ->
     (copy_to this Float_ where_ limit m).2 p a = m p a) /\
  (compatible_ref this Float_ first last m).2 = m.
Proof.
  intros Hleaf. split; [|apply compatible_ref_view_heap; exact Hleaf].
  intros p a Hout.
  destruct this as [name_ U arr size_|name_ U arr size1_ size2_|];
    cbn in *; try discriminate.
  - unfold Vector_Ref_copy_to, Vector_Ref_parameter_count in *.
    destruct (to_size_t (limit - where_) >? size_); [reflexivity|]. cbn.
    apply std_copy_outside. intros ->.
    assert (~ where_ <= a < where_ + size_) by tauto. lia.
  - unfold Matrix_Ref_copy_to in *.
    destruct (to_size_t (limit - where_) >? _); [reflexivity|]. cbn.
    apply std_copy_outside. intros ->.
    assert (~ where_ <= a
              < where_ + Matrix_Ref_parameter_count size1_ size2_) by tauto.
    lia.
Qed.

End Views.

(** C7, as amended: the count of a vector view of size [n] is [n]; the
    count of a matrix view of shape [(rows, cols)] is the [size_t] product
    [rows * cols] modulo [2^64], which is [rows * cols] whenever the product
    fits a [size_t]; the count of a composite is the sum of the counts of
    its children. *)
Theorem parameter_count_by_shape :
  (forall name_ U array_ n,
     parameter_count (Vector_Ref name_ U array_ n) = n) /\
  (forall name_ U array_ rows cols,
     parameter_count (Matrix_Ref name_ U array_ rows cols)
     = (rows * cols) mod 2 ^ 64) /\
  (forall name_ U array_ rows cols,
     0 <= rows * cols < 2 ^ 64 ->
     parameter_count (Matrix_Ref name_ U array_ rows cols) = rows * cols) /\
  (forall name_ by_name params,
     parameter_count (Parameters name_ by_name params)
     = sum_counts parameter_count params).
Proof.
  repeat split; intros; try reflexivity.
  cbn. apply to_size_t_id. assumption.
Qed.

(* ===================================================================== *)
(** ** Flattening and compatible copies *)

(** Induction on a tree, with the property available for every child of a
    composite. *)
Lemma Parameter_Value_tree_ind (P : Parameter_Value -> Prop) :
  (forall name_ U array_ size_, P (Vector_Ref name_ U array_ size_)) ->
  (forall name_ U array_ size1_ size2_,
     P (Matrix_Ref name_ U array_ size1_ size2_)) ->
  (forall name_ by_name params,
     Forall (fun child => P child.2) params ->
     P (Parameters name_ by_name params)) ->
  forall this, P this.
Proof.
  intros HV HM HP.
  refine (fix IH (this : Parameter_Value) : P this :=
    match this with
    | Vector_Ref name_ U array_ size_ => HV name_ U array_ size_
    | Matrix_Ref name_ U array_ size1_ size2_ => HM name_ U array_ size1_ size2_
    | Parameters name_ by_name params =>
        HP name_ by_name params
          ((fix all (l : list (Z * Parameter_Value))
              : Forall (fun child => P child.2) l :=
              match l with
              | [] => List.Forall_nil _
              | child :: l' =>
                  List.Forall_cons _ child l' (IH child.2) (all l')
              end) params)
    end).
Qed.

Section Trees.
Context `{Scalar}.
Implicit Types (this : Parameter_Value) (m : memory).

Lemma view_flattens_into this :
  is_leaf this = true -> size_t_fields this -> flattens_into this.
Proof.
  intros Hleaf Hfields Float_ where_ limit m Hfit Hsep.
  pose proof (parameter_count_view_nonneg this Hleaf Hfields) as [Hn _].
  assert (exists U a, storage this = Some (U, a)
                      /\ cells this = cells_from U a (parameter_count this))
    as (U & a & Hstorage & Hcells).
  { destruct this; try discriminate; eexists _, _; split; reflexivity. }
  exists (std_copy U a (Z.to_nat (parameter_count this)) Float_ where_ m).
  split; [|split].
  - rewrite (copy_to_view_past_guard this U a)
      by (try apply guard_false_on_exact_fit; assumption).
    f_equal. f_equal. lia.
  - intros p b Hout. apply std_copy_outside. intros ->.
    assert (~ where_ <= b < limit) by tauto. lia.
  - rewrite Hcells. unfold load_range, cells_from. rewrite map_map.
    apply map_ext_in. intros i Hi. apply in_seq in Hi. cbn.
    apply std_copy_delivers. lia.
Qed.

(** C4, as amended: for a view [this] and a range [[first, last)] of
    exactly its count, [compatible_copy] returns the view that
    [compatible_ref] returns and leaves the heap that [copy_to] leaves, the
    range holding the elements of the view's buffer converted to the
    element type of the range.  Flattening the returned view into a buffer
    of exactly its count and flattening the original into one both return,
    and they deliver the same elements exactly when every element of the
    view's buffer, converted to the element type of the range and from
    there to the element type of the buffers, is that element converted to
    the element type of the buffers directly, as it is when the range has
    the element type of the buffers or that of the view. *)
Theorem compatible_copy_round_trip this Underlying array_ Float_ Dest
    first last buf1 buf2 m :
  is_leaf this = true ->
  size_t_fields this ->
  storage this = Some (Underlying, array_) ->
  last - first = parameter_count this ->
  exists new m_copy m1 m2,
    compatible_ref this Float_ first last m = (Ok new, m) /\
    copy_to this Float_ first last m = (Ok last, m_copy) /\
    compatible_copy this Float_ first last m = (Ok new, m_copy) /\
    load_range Float_ first (parameter_count this) m_copy
    = map (convert Underlying Float_)
        (load_range Underlying array_ (parameter_count this) m) /\
    copy_to this Dest buf1 (buf1 + parameter_count this) m
    = (Ok (buf1 + parameter_count this), m1) /\
    copy_to new Dest buf2 (buf2 + parameter_count this) m_copy
    = (Ok (buf2 + parameter_count this), m2) /\
    (load_range Dest buf2 (parameter_count this) m2
     = load_range Dest buf1 (parameter_count this) m1
     <-> forall i, 0 <= i < parameter_count this ->
           convert Float_ Dest
             (convert Underlying Float_ (m Underlying (array_ + i)))
           = convert Underlying Dest (m Underlying (array_ + i))) /\
    (Float_ = Dest \/ Float_ = Underlying ->
     load_range Dest buf2 (parameter_count this) m2
     = load_range Dest buf1 (parameter_count this) m1).
Proof.
  intros Hleaf Hfields Hstorage Hlen.
  pose proof (parameter_count_view_nonneg this Hleaf Hfields) as [Hn _].
  destruct (compatible_ref_view_cases this Float_ first last m Hleaf)
    as (e & new & _ & Hleaf' & _ & _ & Hstorage' & Hcount' & Hfields' & Href).
  specialize (Hfields' Hfields).
  replace (first + parameter_count this) with last in Href by lia.
  rewrite pointer_eqb_refl in Href.
  set (n := parameter_count this) in *.
  assert (forall F w, copy_to this F w (w + n) m
            = (Ok (w + n), std_copy Underlying array_ (Z.to_nat n) F w m))
    as Hcopy.
  { intros F w. apply copy_to_view_past_guard; try assumption.
    apply guard_false_on_exact_fit; try assumption. fold n. lia. }
  exists new, (std_copy Underlying array_ (Z.to_nat n) Float_ first m),
    (std_copy Underlying array_ (Z.to_nat n) Dest buf1 m),
    (std_copy Float_ first (Z.to_nat n) Dest buf2
       (std_copy Underlying array_ (Z.to_nat n) Float_ first m)).
  assert (last = first + n) as -> by lia.
  split; [exact Href|]. split; [apply Hcopy|]. split.
  { unfold compatible_copy, mbind, Eff_bind. rewrite Href, Hcopy. reflexivity. }
  split.
  { unfold load_range. rewrite map_map. apply map_ext_in. intros i Hi.
    apply in_seq in Hi. apply std_copy_delivers. lia. }
  split; [apply Hcopy|]. split.
  { rewrite (copy_to_view_past_guard new Float_ first); try assumption.
    - rewrite Hcount'. reflexivity.
    - apply guard_false_on_exact_fit; try assumption. rewrite Hcount'.
      fold n. lia. }
  assert (load_range Dest buf2 n
            (std_copy Float_ first (Z.to_nat n) Dest buf2
               (std_copy Underlying array_ (Z.to_nat n) Float_ first m))
          = load_range Dest buf1 n
              (std_copy Underlying array_ (Z.to_nat n) Dest buf1 m)
          <-> forall i, 0 <= i < n ->
                convert Float_ Dest
                  (convert Underlying Float_ (m Underlying (array_ + i)))
                = convert Underlying Dest (m Underlying (array_ + i)))
    as Hsurvive.
  { unfold load_range. rewrite map_ext_in_iff. split.
    - intros Hsame i Hi. specialize (Hsame (Z.to_nat i)).
      rewrite !std_copy_delivers, Z2Nat.id in Hsame by lia.
      apply Hsame. apply in_seq. lia.
    - intros Hconv i Hi. apply in_seq in Hi.
      rewrite !std_copy_delivers by lia. apply Hconv. lia. }
  split; [exact Hsurvive|].
  intros Hdirect. apply Hsurvive. intros i _.
  destruct Hdirect as [-> | ->]; [destruct Dest|destruct Underlying];
    reflexivity.
Qed.

End Trees.

(* ===================================================================== *)
(** ** Registration in a composite *)

Lemma child_at_insert_child_same index param params :
  child_at index params = None ->
  child_at index (insert_child index param params) = Some param.
Proof.
  induction params as [|child params IH]; cbn; intros Hfree.
  - rewrite Z.eqb_refl. reflexivity.
  - destruct (child.1 =? index) eqn:Hkey; [discriminate|].
    destruct (index <? child.1); cbn.
    + rewrite Z.eqb_refl. reflexivity.
    + rewrite Hkey. apply IH. exact Hfree.
Qed.

Lemma child_at_insert_child_other index param params j :
  j <> index ->
  child_at j (insert_child index param params) = child_at j params.
Proof.
  intros Hne. induction params as [|child params IH]; cbn.
  - replace (index =? j) with false by (symmetry; apply Z.eqb_neq; lia).
    reflexivity.
  - destruct (index <? child.1); cbn.
    + replace (index =? j) with false by (symmetry; apply Z.eqb_neq; lia).
      reflexivity.
    + rewrite IH. reflexivity.
Qed.

(** What [add] does, by cases on the two tables. *)
Lemma add_cases index param this :
  add index param this
  = if bool_decide (is_Some (child_at index (params this)))
    then (Throw {| kind := DuplicateIndex; what := EmptyString |}, this)
    else
      match by_name this !! name param with
      | Some other =>
          if negb (other =? index)
          then (Throw {| kind := DuplicateName; what := EmptyString |}, this)
          else (Ok tt,
                {| by_name := <[name param := index]> (by_name this);
                   params := insert_child index param (params this) |})
      | None =>
          (Ok tt,
           {| by_name := <[name param := index]> (by_name this);
              params := insert_child index param (params this) |})
      end.
Proof.
  unfold add, mbind, Eff_bind, get. cbn.
  destruct (bool_decide _); [reflexivity|].
  destruct (by_name this !! name param) as [other|]; [|reflexivity].
  destruct (negb _); reflexivity.
Qed.

(** A successful [add] keeps the two tables in agreement. *)
Lemma add_keeps_tables_agree index param this :
  tables_agree this ->
  (add index param this).1 = Ok tt ->
  tables_agree (add index param this).2.
Proof.
  intros Hagree. rewrite add_cases.
  case_bool_decide as Hocc; [discriminate|].
  assert (child_at index (params this) = None) as Hfree.
  { destruct (child_at index (params this)) eqn:E; [|reflexivity].
    exfalso. apply Hocc. eauto. }
  destruct (by_name this !! name param) as [other|] eqn:Hname.
  { destruct (negb _) eqn:Hsame; [discriminate|].
    apply negb_false_iff, Z.eqb_eq in Hsame. subst other.
    apply Hagree in Hname as (child & Hchild & _). congruence. }
  intros _ n j. cbn. destruct (String.string_dec (name param) n) as [<-|Hn].
  - rewrite lookup_insert_eq. split.
    + intros [= <-]. exists param. split; [|reflexivity].
      apply child_at_insert_child_same. exact Hfree.
    + intros (child & Hchild & Hsame).
      destruct (Z.eq_dec j index) as [->|Hne]; [reflexivity|].
      rewrite child_at_insert_child_other in Hchild by exact Hne.
      assert (by_name this !! name param = Some j) by (apply Hagree; eauto).
      congruence.
  - rewrite lookup_insert_ne by exact Hn. rewrite (Hagree n j). split.
    + intros (child & Hchild & Hsame). exists child. split; [|exact Hsame].
      rewrite child_at_insert_child_other; [exact Hchild|]. congruence.
    + intros (child & Hchild & Hsame).
      destruct (Z.eq_dec j index) as [->|Hne].
      * rewrite child_at_insert_child_same in Hchild by exact Hfree.
        congruence.
      * rewrite child_at_insert_child_other in Hchild by exact Hne. eauto.
Qed.

(** C6: [add] of a child at an occupied index throws DuplicateIndex; at a
    free index, when the tables agree and another index already holds a
    child of the same name, it throws DuplicateName; a throwing [add]
    leaves both tables as they were; a returning [add] has registered the
    child at the index, under its name, beside the children that were
    there. *)
Theorem add_refuses_duplicates index param this :
  (is_Some (child_at index (params this)) ->
   add index param this
   = (Throw {| kind := DuplicateIndex; what := EmptyString |}, this)) /\
  (forall other child,
     tables_agree this ->
     child_at index (params this) = None ->
     child_at other (params this) = Some child ->
     name child = name param ->
     other <> index ->
     add index param this
     = (Throw {| kind := DuplicateName; what := EmptyString |}, this)) /\
  (forall e, (add index param this).1 = Throw e ->
             (add index param this).2 = this) /\
  ((add index param this).1 = Ok tt ->
   child_at index (params (add index param this).2) = Some param /\
   by_name (add index param this).2 !! name param = Some index /\
   forall j, j <> index ->
     child_at j (params (add index param this).2)
     = child_at j (params this)).
Proof.
  rewrite add_cases. split; [|split; [|split]].
  - intros Hocc. rewrite bool_decide_eq_true_2 by exact Hocc. reflexivity.
  - intros other child Hagree Hfree Hchild Hsame Hne.
    rewrite bool_decide_eq_false_2 by (rewrite Hfree; apply is_Some_None).
    assert (by_name this !! name param = Some other) as ->.
    { apply Hagree. eauto. }
    replace (other =? index) with false by (symmetry; apply Z.eqb_neq; lia).
    reflexivity.
  - intros e. case_bool_decide; [reflexivity|].
    destruct (by_name this !! name param) as [other|]; [|discriminate].
    destruct (negb _); [reflexivity|discriminate].
  - case_bool_decide as Hocc; [discriminate|].
    assert (child_at index (params this) = None) as Hfree.
    { destruct (child_at index (params this)) eqn:E; [|reflexivity].
      exfalso. apply Hocc. eauto. }
    assert (forall r : result unit * tables,
      r = (Ok tt,
           {| by_name := <[name param := index]> (by_name this);
              params := insert_child index param (params this) |}) ->
      child_at index (params r.2) = Some param /\
      by_name r.2 !! name param = Some index /\
      forall j, j <> index -> child_at j (params r.2)
                              = child_at j (params this)) as Hreg.
    { intros r ->. cbn. split; [|split].
      - apply child_at_insert_child_same. exact Hfree.
      - apply lookup_insert_eq.
      - intros j Hj. apply child_at_insert_child_other. exact Hj. }
    destruct (by_name this !! name param) as [other|];
      [|intros _; apply Hreg; reflexivity].
    destruct (negb _); [discriminate|]. intros _. apply Hreg. reflexivity.
Qed.

(* ===================================================================== *)
(** ** Clearing a composite *)

Section Clearing.
Context `{Scalar}.
Implicit Types (this : Parameter_Value) (m : memory).

(** No destructor writes to the heap. *)
Lemma destroy_keeps_heap this m : destroy this m = (Ok tt, m).
Proof.
  revert m.
  induction this as [name_ U a s|name_ U a s1 s2|name_ bn ps IH]
    using Parameter_Value_tree_ind; intros m; try reflexivity.
  cbn [destroy]. induction ps as [|child ps IHps]; [reflexivity|].
  apply Forall_cons_iff in IH as [Hchild IH].
  cbn [destroy_children]. unfold mbind, Eff_bind.
  rewrite Hchild. apply IHps. exact IH.
Qed.

Lemma destroy_children_keeps_heap (children : list (Z * Parameter_Value)) m :
  destroy_children destroy children m = (Ok tt, m).
Proof.
  apply (destroy_keeps_heap (Parameters EmptyString ∅ children)).
Qed.

(** C8: after [clear] both tables of the composite are empty, so its count
    is zero, and the heap is the heap there was before: no scalar of any
    buffer, in particular none that a detached view referred to, has
    changed. *)
Theorem clear_detaches_children (name_ : string) (this : tables) m :
  (clear (this, m)).1 = Ok tt /\
  params (clear (this, m)).2.1 = [] /\
  by_name (clear (this, m)).2.1 = ∅ /\
  parameter_count
    (Parameters name_ (by_name (clear (this, m)).2.1)
       (params (clear (this, m)).2.1)) = 0 /\
  (clear (this, m)).2.2 = m.
Proof.
  unfold clear. cbn [fst snd].
  rewrite destroy_children_keeps_heap. repeat split.
Qed.

End Clearing.

(* ===================================================================== *)
(** ** Bulk arithmetic: [update] and [operator+=] *)





Section BulkArithmetic.
Context `{Arithmetic}.
Implicit Types (this other : Parameter_Value) (m : memory).











End BulkArithmetic.

(* ===================================================================== *)
(** ** IEEE arithmetic at rate 0 and rate 1 *)


(** A number: a zero or a finite value. *)
Definition is_number (x : spec_float) : bool :=
  match x with
  | S754_zero _ | S754_finite _ _ _ => true
  | _ => false
  end.

Definition is_zero (x : spec_float) : bool :=
  match x with
  | S754_zero _ => true
  | _ => false
  end.


(** The sum of a value other than a zero with the product of zero and a
    number is that value; the product of zero and an infinity is not a
    number, and neither is any sum with it. *)
Lemma ieee_zero_step x y :
  (is_zero x = false -> is_number y = true ->
   SFadd 53 1024 x (SFmul 53 1024 (S754_zero false) y) = x) /\
  (is_number y = false ->
   SFadd 53 1024 x (SFmul 53 1024 (S754_zero false) y) = S754_nan).
Proof.
  split.
  - intros Hx Hy.
    destruct y as [sy|sy| |sy my ey]; try discriminate;
      destruct x as [sx|sx| |sx mx ex]; try discriminate; reflexivity.
  - intros Hy.
    destruct y as [sy|sy| |sy my ey]; try discriminate;
      destruct x as [sx|sx| |sx mx ex]; reflexivity.
Qed.

(* ===================================================================== *)
(** ** The operations at sample inputs *)

(** C1 at a failing input: a view of two elements is copied into a
    destination of capacity one.  The guard does not throw; [copy_to]
    returns the cursor 12, one past [limit], and has written the view's
    second element to the cell at [limit], which lies outside the
    destination. *)
Lemma copy_to_short_destination_overrun_witness :
  0 <= 11 - 10 < parameter_count sample_vector /\
  (copy_to sample_vector Double 10 11 counting_memory).1 = Ok 12 /\
  counting_memory Double 11 = S754_zero false /\
  (copy_to sample_vector Double 10 11 counting_memory).2 Double 11
  = S754_finite false 4503599627370496 (-51).
Proof.
  assert (0 <= 11 - 10 < parameter_count sample_vector) as Hshort.
  { cbn. unfold Vector_Ref_parameter_count. lia. }
  split; [exact Hshort|].
  destruct (copy_to_short_destination_overrun sample_vector Float 0 Double
              10 11 counting_memory) as [Hcopy _].
  - reflexivity.
  - cbn. unfold is_size_t, size_t_bits. lia.
  - reflexivity.
  - exact Hshort.
  - rewrite Hcopy. vm_compute. repeat split.
Defined.

(** C2 at a failing input: a view of one element is copied into a
    destination of capacity two.  The guard throws, and nothing is
    written. *)
Lemma copy_to_long_destination_throws_witness :
  parameter_count (Vector_Ref "w" Float 0 1) < 12 - 10 < 2 ^ size_t_bits /\
  exists e,
    copy_to (Vector_Ref "w" Float 0 1) Double 10 12 counting_memory
    = (Throw e, counting_memory) /\
    kind e = SizeMismatch.
Proof.
  assert (parameter_count (Vector_Ref "w" Float 0 1) < 12 - 10
          < 2 ^ size_t_bits) as Hlong.
  { cbn. unfold Vector_Ref_parameter_count, size_t_bits. lia. }
  split; [exact Hlong|].
  apply (copy_to_long_destination_throws (Vector_Ref "w" Float 0 1) Double
           10 12 counting_memory).
  - reflexivity.
  - exact Hlong.
Defined.

(** C10 at a sample input: two [float]s into a [double] range of two. *)
Lemma copy_to_accepts_exact_fit_witness :
  is_leaf sample_vector = true /\
  12 - 10 = parameter_count sample_vector /\
  copy_to sample_vector Double 10 12 counting_memory
  = (Ok 12, std_copy Float 0 2 Double 10 counting_memory).
Proof.
  split; [reflexivity|]. split; [reflexivity|].
  apply (copy_to_accepts_exact_fit sample_vector Float 0 Double 10 12
           counting_memory).
  - reflexivity.
  - cbn. unfold is_size_t, size_t_bits. lia.
  - reflexivity.
  - reflexivity.
Defined.

(** C3, refuted as stated: a [float] vector view of count [2^62 + 2], a
    [size_t] value, is given the range [[10, 12)] of two [float]s.  The
    length of the range is not the count, and [compatible_ref] does not
    throw: [first + size_] has wrapped around the address space onto
    [last], and a view of count [2^62 + 2] over the range is returned. *)
Lemma compatible_ref_accepts_wrapped_count :
  size_t_fields (Vector_Ref "w" Float 0 (2 ^ 62 + 2)) /\
  parameter_count (Vector_Ref "w" Float 0 (2 ^ 62 + 2)) = 4611686018427387906 /\
  12 - 10 = 2 /\
  compatible_ref (Vector_Ref "w" Float 0 (2 ^ 62 + 2)) Float 10 12
    counting_memory
  = (Ok (Vector_Ref "w" Float 10 (2 ^ 62 + 2)), counting_memory).
Proof.
  split; [cbn; unfold is_size_t, size_t_bits; lia|].
  split; [reflexivity|]. split; reflexivity.
Qed.

(** C3 as amended, at a sample input: a range of the right length. *)
Lemma compatible_ref_view_witness :
  is_leaf sample_vector = true /\
  - address_space Double < 12 - 10 - parameter_count sample_vector
  < address_space Double /\
  (compatible_ref sample_vector Double 10 12 counting_memory).1
  = Ok (Vector_Ref "w" Double 10 2) /\
  (compatible_ref sample_vector Double 10 12 counting_memory).2
  = counting_memory /\
  (is_Throw (compatible_ref sample_vector Double 10 12 counting_memory).1
   = true <-> 12 - 10 <> parameter_count sample_vector).
Proof.
  assert (- address_space Double < 12 - 10 - parameter_count sample_vector
          < address_space Double) as Hnear by (vm_compute; split; reflexivity).
  split; [reflexivity|]. split; [exact Hnear|]. split; [reflexivity|].
  pose proof (compatible_ref_view sample_vector Double 10 12 counting_memory
                eq_refl) as (Hheap & _ & Hthrow & _).
  split; [exact Hheap|exact (Hthrow Hnear)].
Defined.

(** C9, refuted as stated: a view of the [float]s at addresses 1 and 2 is
    copied into the range that starts at address 0 of the same buffer.  The
    element at address 1 belongs to the buffer of the view, held 2 before
    the call and holds 3 after it. *)
Lemma copy_to_overwrites_overlapping_storage :
  (copy_to (Vector_Ref "w" Float 1 2) Float 0 2 counting_memory).1 = Ok 2 /\
  In (Float, 1) (cells (Vector_Ref "w" Float 1 2)) /\
  counting_memory Float 1 = S754_finite false 8388608 (-22) /\
  (copy_to (Vector_Ref "w" Float 1 2) Float 0 2 counting_memory).2 Float 1
  = S754_finite false 12582912 (-22).
Proof. vm_compute. repeat split. left. reflexivity. Qed.

(** C9 as amended, at a sample input: the cell past the destination. *)
Lemma view_writes_only_destination_witness :
  is_leaf sample_vector = true /\
  (copy_to sample_vector Float 0 2 counting_memory).2 Float 2
  = counting_memory Float 2 /\
  (compatible_ref sample_vector Float 0 2 counting_memory).2
  = counting_memory.
Proof.
  split; [reflexivity|].
  pose proof (view_writes_only_destination sample_vector Float 0 2 0 2
                counting_memory eq_refl) as [Hcopy Href].
  split; [|exact Href].
  apply Hcopy. cbn. unfold Vector_Ref_parameter_count. lia.
Defined.

(** C7, refuted as stated: a matrix view of shape [(2^32, 2^32)], whose
    dimensions are [size_t] values, has count 0 and not [2^64]. *)
Lemma matrix_count_wraps_around :
  size_t_fields (Matrix_Ref "w" Float 0 (2 ^ 32) (2 ^ 32)) /\
  parameter_count (Matrix_Ref "w" Float 0 (2 ^ 32) (2 ^ 32)) = 0 /\
  2 ^ 32 * 2 ^ 32 = 18446744073709551616.
Proof.
  split; [|split; reflexivity].
  cbn. unfold is_size_t, size_t_bits. lia.
Qed.

(** C7 as amended, at a sample input: a matrix of shape [(3, 4)]. *)
Lemma parameter_count_by_shape_witness :
  0 <= 3 * 4 < 2 ^ 64 /\
  parameter_count (Matrix_Ref "w" Float 0 3 4) = 3 * 4.
Proof.
  split; [lia|].
  apply (proj1 (proj2 (proj2 parameter_count_by_shape))). lia.
Defined.

(** C4, refuted as stated: a [double] view of one tenth is copied through
    a [float] range.  Flattening the copy into [double]s yields the [float]
    nearest to one tenth, and flattening the original yields one tenth. *)
Lemma compatible_copy_through_float_rounds :
  (compatible_copy (Vector_Ref "w" Double 0 1) Float 10 11 tenth_memory).1
  = Ok (Vector_Ref "w" Float 10 1) /\
  load_range Double 20 1
    (copy_to (Vector_Ref "w" Float 10 1) Double 20 21
       (compatible_copy (Vector_Ref "w" Double 0 1) Float 10 11
          tenth_memory).2).2
  = [S754_finite false 7205759511166976 (-56)] /\
  load_range Double 30 1
    (copy_to (Vector_Ref "w" Double 0 1) Double 30 31 tenth_memory).2
  = [S754_finite false 7205759403792794 (-56)].
Proof. vm_compute. repeat split. Qed.

(** C4 as amended, at a sample input: the sample vector, two [float]s,
    is copied over the [double] range [[10, 12)] and flattened into
    [float] buffers; widening a [float] and narrowing it again gives the
    [float] back. *)
Lemma compatible_copy_round_trip_witness :
  12 - 10 = parameter_count sample_vector /\
  exists new m_copy m1 m2,
    compatible_copy sample_vector Double 10 12 counting_memory
    = (Ok new, m_copy) /\
    copy_to sample_vector Float 20 22 counting_memory = (Ok 22, m1) /\
    copy_to new Float 30 32 m_copy = (Ok 32, m2) /\
    load_range Float 30 2 m2 = load_range Float 20 2 m1.
Proof.
  split; [reflexivity|].
  destruct (compatible_copy_round_trip sample_vector Float 0 Double Float
              10 12 20 30 counting_memory)
    as (new & m_copy & m1 & m2 & _ & _ & Hcopy & _ & Hflat1 & Hflat2 & Hsame
        & _).
  - reflexivity.
  - cbn. unfold is_size_t, size_t_bits. lia.
  - reflexivity.
  - reflexivity.
  - exists new, m_copy, m1, m2.
    split; [exact Hcopy|]. split; [exact Hflat1|]. split; [exact Hflat2|].
    apply Hsame. intros i Hi.
    change (parameter_count sample_vector) with 2 in Hi.
    assert (i = 0 \/ i = 1) as [-> | ->] by lia; reflexivity.
Defined.

(** The composite hands its children the caller's [limit]: on a range of
    exactly the count of the sample tree, six, the guard of its first view
    finds a capacity of six for a count of two and throws, and
    [compatible_copy] throws with it. *)
Lemma compatible_copy_sample_tree_throws :
  parameter_count sample_tree = 106 - 100 /\
  copy_to sample_tree Float 100 106 counting_memory
  = (Throw {| kind := SizeMismatch; what := "copy_to(): wrong size array" |},
     counting_memory) /\
  (compatible_copy sample_tree Float 100 106 counting_memory).1
  = Throw {| kind := SizeMismatch; what := "copy_to(): wrong size array" |}.
Proof. split; [reflexivity|]. split; reflexivity. Qed.



(** Where two positions of a tree name the same scalar the values of the
    positions cannot both be left there: the [float] one, named by both
    positions of a tree, is updated with rate 1 from the [float]s 2 and 3;
    the first position would leave 3, and 4 is left. *)
Lemma update_of_overlapping_leaves :
  cells (Parameters "net" ∅
           [(0, Vector_Ref "a" Float 0 1); (1, Vector_Ref "b" Float 0 1)])
  = [(Float, 0); (Float, 0)] /\
  @axpy ieee ieee_arithmetic Float Float one
    (counting_memory Float 0) (counting_memory Float 1)
  = S754_finite false 12582912 (-22) /\
  (@update ieee ieee_arithmetic
     (Parameters "net" ∅
        [(0, Vector_Ref "a" Float 0 1); (1, Vector_Ref "b" Float 0 1)])
     (Parameters "net" ∅
        [(0, Vector_Ref "a" Float 1 1); (1, Vector_Ref "b" Float 2 1)])
     one counting_memory).2 Float 0
  = S754_finite false 8388608 (-21).
Proof. vm_compute. repeat split. Qed.


(** C6 at sample inputs: an occupied index, a name held elsewhere, and a
    registration that goes through. *)
Lemma add_refuses_duplicates_witness :
  add 0 (Vector_Ref "b" Float 2 2) sample_tables
  = (Throw {| kind := DuplicateIndex; what := EmptyString |}, sample_tables) /\
  add 1 (Vector_Ref "a" Float 2 2) sample_tables
  = (Throw {| kind := DuplicateName; what := EmptyString |}, sample_tables) /\
  child_at 1 (params (add 1 (Vector_Ref "b" Float 2 2) sample_tables).2)
  = Some (Vector_Ref "b" Float 2 2).
Proof.
  split; [|split].
  - apply (proj1 (add_refuses_duplicates 0 (Vector_Ref "b" Float 2 2)
                    sample_tables)).
    cbn. eauto.
  - apply (proj1 (proj2 (add_refuses_duplicates 1 (Vector_Ref "a" Float 2 2)
                           sample_tables))
             0 (Vector_Ref "a" Float 0 2)); try reflexivity; [|lia].
    intros n j. unfold sample_tables. cbn [by_name params child_at fst snd].
    rewrite lookup_singleton_Some. split.
    + intros [<- <-]. eauto.
    + intros (child & Hchild & <-).
      destruct (0 =? j) eqn:Hj; [|discriminate].
      apply Z.eqb_eq in Hj. inversion Hchild. subst. auto.
  - apply (proj2 (proj2 (proj2 (add_refuses_duplicates 1
                                  (Vector_Ref "b" Float 2 2) sample_tables)))).
    reflexivity.
Defined.

(* ===================================================================== *)
(** ** Further properties of the views *)

(** The exception that [copy_to] of a view throws: the message names the
    class of the view. *)
Definition copy_to_exception (this : Parameter_Value) : Exception :=
  match this with
  | Matrix_Ref _ _ _ _ _ =>
      {| kind := SizeMismatch; what := "copy_to(): wrong size matrix" |}
  | _ => {| kind := SizeMismatch; what := "copy_to(): wrong size array" |}
  end.

Section MoreViews.
Context `{Scalar}.
Implicit Types (this : Parameter_Value) (m : memory).

(** The two outcomes of [copy_to] of a view. *)
Lemma copy_to_view_cases this Underlying array_ Float_ where_ limit m :
  is_leaf this = true ->
  storage this = Some (Underlying, array_) ->
  copy_to this Float_ where_ limit m
  = if to_size_t (limit - where_) >? parameter_count this
    then (Throw (copy_to_exception this), m)
    else (Ok (where_ + parameter_count this),
          std_copy Underlying array_ (Z.to_nat (parameter_count this))
            Float_ where_ m).
Proof.
  intros Hleaf Hstorage.
  destruct this as [name_ U a size_|name_ U a size1_ size2_|];
    try discriminate; injection Hstorage as <- <-.
  - cbn. unfold Vector_Ref_copy_to, Vector_Ref_parameter_count.
    destruct (_ >? _); reflexivity.
  - cbn. unfold Matrix_Ref_copy_to.
    destruct (_ >? _); reflexivity.
Qed.

Lemma view_has_storage this :
  is_leaf this = true ->
  exists Underlying array_,
    storage this = Some (Underlying, array_) /\
    cells this = cells_from Underlying array_ (parameter_count this).
Proof.
  destruct this; intros Hleaf; try discriminate; eexists _, _; split;
    reflexivity.
Qed.

(** The values [copy_to] of a view delivers, read off the cells of the view
    or off its buffer. *)
Lemma view_cells_values this Underlying array_ Float_ m :
  is_leaf this = true ->
  storage this = Some (Underlying, array_) ->
  map (fun c : precision * Z => convert c.1 Float_ (m c.1 c.2)) (cells this)
  = map (convert Underlying Float_)
      (load_range Underlying array_ (parameter_count this) m).
Proof.
  intros Hleaf Hstorage.
  destruct (view_has_storage this Hleaf) as (U & a & Hstorage' & ->).
  rewrite Hstorage in Hstorage'. injection Hstorage' as <- <-.
  unfold load_range, cells_from. rewrite !map_map. reflexivity.
Qed.

(** X1: for a view whose count fits a [ptrdiff_t] and a pointer difference
    [limit - where] that fits one too, [copy_to] throws exactly when the
    range is reversed ([limit] before [where]) or longer than the count. *)
Theorem copy_to_view_rejects this Float_ where_ limit m :
  is_leaf this = true ->
  size_t_fields this ->
  parameter_count this < 2 ^ 63 ->
  - 2 ^ 63 <= limit - where_ < 2 ^ 63 ->
  (is_Throw (copy_to this Float_ where_ limit m).1 = true
   <-> limit < where_ \/ parameter_count this < limit - where_).
Proof.
  intros Hleaf Hfields Hcount Hdiff.
  pose proof (parameter_count_view_nonneg this Hleaf Hfields) as [Hlow _].
  rewrite copy_to_view_throws_iff by exact Hleaf.
  destruct (Z_lt_le_dec (limit - where_) 0) as [Hneg|Hpos].
  - assert (to_size_t (limit - where_) = limit - where_ + 2 ^ 64) as ->.
    { unfold to_size_t, size_t_bits.
      rewrite <- (Z_mod_plus_full (limit - where_) 1 (2 ^ 64)).
      apply Z.mod_small. lia. }
    lia.
  - rewrite to_size_t_id by (unfold is_size_t, size_t_bits; lia). lia.
Qed.

(** X2: [copy_to] of a view validates before it writes: when it throws,
    the heap is the heap it was given, and the exception is the
    SizeMismatch of its class. *)
Theorem copy_to_view_throw_writes_nothing this Float_ where_ limit m e :
  is_leaf this = true ->
  (copy_to this Float_ where_ limit m).1 = Throw e ->
  (copy_to this Float_ where_ limit m).2 = m /\
  e = copy_to_exception this /\
  kind e = SizeMismatch.
Proof.
  intros Hleaf.
  destruct (view_has_storage this Hleaf) as (U & a & Hstorage & _).
  rewrite (copy_to_view_cases this U a) by assumption.
  destruct (_ >? _); cbn; [|discriminate].
  intros [= <-]. repeat split. destruct this; reflexivity.
Qed.

(** X3: when [copy_to] of a view returns and no element of the view's
    buffer lies in the destination, it returns [where + n], the [n]
    destination elements hold the elements of the buffer, converted to the
    destination's element type, in order, and the buffer is as it was. *)
Theorem copy_to_view_delivers this Underlying array_ Float_
    where_ limit m cur :
  is_leaf this = true ->
  storage this = Some (Underlying, array_) ->
  (forall i j, 0 <= i < parameter_count this ->
               0 <= j < parameter_count this ->
               (Float_, where_ + j) <> (Underlying, array_ + i)) ->
  (copy_to this Float_ where_ limit m).1 = Ok cur ->
  cur = where_ + parameter_count this /\
  load_range Float_ where_ (parameter_count this)
    (copy_to this Float_ where_ limit m).2
  = map (convert Underlying Float_)
      (load_range Underlying array_ (parameter_count this) m) /\
  load_range Underlying array_ (parameter_count this)
    (copy_to this Float_ where_ limit m).2
  = load_range Underlying array_ (parameter_count this) m.
Proof.
  intros Hleaf Hstorage Hsep.
  rewrite (copy_to_view_cases this Underlying array_) by assumption.
  destruct (_ >? _); cbn [fst snd]; [discriminate|].
  intros [= <-]. split; [reflexivity|]. split.
  - unfold load_range. rewrite map_map. apply map_ext_in. intros i Hi.
    apply in_seq in Hi. apply std_copy_delivers. lia.
  - apply load_range_ext. intros b Hb. apply std_copy_outside.
    intros Heq.
    destruct (Z_lt_le_dec b where_) as [|Hge]; [left; assumption|].
    destruct (Z_lt_le_dec b
                (where_ + Z.of_nat (Z.to_nat (parameter_count this))))
      as [Hlt|]; [|right; assumption].
    exfalso. apply (Hsep (b - array_) (b - where_)); [lia|lia|].
    rewrite Heq. f_equal. lia.
Qed.

(** X4: [copy_to] of a view into a destination of its own element type
    that starts at or before the view's buffer delivers the elements the
    buffer held, even where the two overlap: every element is read before
    it is overwritten. *)
Theorem copy_to_view_left_overlap this Underlying array_ where_ limit m cur :
  is_leaf this = true ->
  storage this = Some (Underlying, array_) ->
  where_ <= array_ ->
  (copy_to this Underlying where_ limit m).1 = Ok cur ->
  load_range Underlying where_ (parameter_count this)
    (copy_to this Underlying where_ limit m).2
  = load_range Underlying array_ (parameter_count this) m.
Proof.
  intros Hleaf Hstorage Hleft.
  rewrite (copy_to_view_cases this Underlying array_) by assumption.
  destruct (_ >? _); cbn [fst snd]; [discriminate|]. intros _.
  unfold load_range. apply map_ext_in. intros i Hi. apply in_seq in Hi.
  rewrite std_copy_delivers by lia. destruct Underlying; reflexivity.
Qed.

(** [Vector_Ref::copy_to] on a destination of exactly its size. *)
Lemma Vector_Ref_copy_to_exact Underlying array_ size_ Float_ where_ m :
  is_size_t size_ ->
  Vector_Ref_copy_to Underlying array_ size_ Float_ where_ (where_ + size_) m
  = (Ok (where_ + size_),
     std_copy Underlying array_ (Z.to_nat size_) Float_ where_ m).
Proof.
  intros Hsize. unfold Vector_Ref_copy_to.
  replace (where_ + size_ - where_) with size_ by lia.
  rewrite to_size_t_id by exact Hsize.
  rewrite Z.gtb_ltb, Z.ltb_irrefl. reflexivity.
Qed.

(** X5: when the destination has another element type than the view, or
    does not start inside the view's buffer, copying a vector view in one
    call is copying its head and then, at the returned cursor, its tail:
    same returned cursor, same heap. *)
Theorem copy_to_vector_split name_ Underlying array_ n1 n2 Float_ where_ m :
  0 <= n1 -> 0 <= n2 -> n1 + n2 < 2 ^ size_t_bits ->
  (Underlying = Float_ ->
   where_ <= array_ \/ array_ + (n1 + n2) <= where_) ->
  copy_to (Vector_Ref name_ Underlying array_ (n1 + n2)) Float_
    where_ (where_ + (n1 + n2)) m
  = (cur ← copy_to (Vector_Ref name_ Underlying array_ n1) Float_
             where_ (where_ + n1);
     copy_to (Vector_Ref name_ Underlying (array_ + n1) n2) Float_
       cur (cur + n2)) m.
Proof.
  intros H1 H2 Hfit Hsep.
  unfold mbind, Eff_bind. cbn [copy_to].
  rewrite (Vector_Ref_copy_to_exact _ _ n1) by (unfold is_size_t; lia).
  rewrite (Vector_Ref_copy_to_exact _ _ n2) by (unfold is_size_t; lia).
  rewrite (Vector_Ref_copy_to_exact _ _ (n1 + n2)) by (unfold is_size_t; lia).
  rewrite Z2Nat.inj_add by lia. rewrite std_copy_split.
  - rewrite !Z2Nat.id by lia. f_equal. f_equal. lia.
  - intros Hsame. specialize (Hsep Hsame). lia.
Qed.

(** X6: two views copied one after the other, the second at the cursor the
    first returns, fill a destination that shares no element with their
    buffers with the elements of the first followed by the elements of the
    second, and write nowhere else. *)
Theorem copy_to_views_append v1 U1 a1 v2 U2 a2 Float_ where_ m :
  is_leaf v1 = true -> is_leaf v2 = true ->
  size_t_fields v1 -> size_t_fields v2 ->
  storage v1 = Some (U1, a1) -> storage v2 = Some (U2, a2) ->
  (forall b,
     where_ <= b < where_ + (parameter_count v1 + parameter_count v2) ->
     ~ In (Float_, b) (cells v1 ++ cells v2)) ->
  exists m',
    (cur ← copy_to v1 Float_ where_ (where_ + parameter_count v1);
     copy_to v2 Float_ cur (cur + parameter_count v2)) m
    = (Ok (where_ + (parameter_count v1 + parameter_count v2)), m') /\
    load_range Float_ where_ (parameter_count v1 + parameter_count v2) m'
    = map (convert U1 Float_) (load_range U1 a1 (parameter_count v1) m)
      ++ map (convert U2 Float_) (load_range U2 a2 (parameter_count v2) m) /\
    (forall p b,
       ~ (p = Float_ /\
          where_ <= b
          < where_ + (parameter_count v1 + parameter_count v2)) ->
       m' p b = m p b).
Proof.
  intros Hleaf1 Hleaf2 Hfields1 Hfields2 Hstorage1 Hstorage2 Hsep.
  pose proof (parameter_count_view_nonneg v1 Hleaf1 Hfields1) as [Hn1 _].
  pose proof (parameter_count_view_nonneg v2 Hleaf2 Hfields2) as [Hn2 _].
  set (n1 := parameter_count v1) in *. set (n2 := parameter_count v2) in *.
  destruct (view_flattens_into v1 Hleaf1 Hfields1 Float_ where_
              (where_ + n1) m) as (m1 & Hcopy1 & Hout1 & Hin1).
  { fold n1. lia. }
  { intros b Hb Hin. apply (Hsep b); [lia|]. apply in_app_iff. auto. }
  destruct (view_flattens_into v2 Hleaf2 Hfields2 Float_ (where_ + n1)
              (where_ + n1 + n2) m1) as (m2 & Hcopy2 & Hout2 & Hin2).
  { fold n2. lia. }
  { intros b Hb Hin. apply (Hsep b); [lia|]. apply in_app_iff. auto. }
  fold n1 in Hin1. fold n2 in Hin2.
  exists m2. split; [|split].
  - unfold mbind, Eff_bind. rewrite Hcopy1, Hcopy2. f_equal. f_equal. lia.
  - rewrite load_range_app by assumption. f_equal.
    + rewrite <- (view_cells_values v1 U1 a1) by assumption.
      rewrite <- Hin1. apply load_range_ext. intros b Hb.
      apply Hout2. intros [_ Hb']. lia.
    + rewrite <- (view_cells_values v2 U2 a2) by assumption.
      rewrite Hin2. apply map_ext_in. intros c Hc. f_equal.
      apply Hout1. intros [Hp Hb]. apply (Hsep c.2); [lia|].
      apply in_app_iff. right. rewrite <- Hp. destruct c; exact Hc.
  - intros p b Hout. rewrite Hout2, Hout1; [reflexivity| |];
      intros [-> Hb]; apply Hout; split; [reflexivity|lia|reflexivity|lia].
Qed.

(** The value [compatible_ref] of a view returns does not depend on the
    heap, and the heap is handed back. *)
Lemma compatible_ref_view_any_heap this Float_ first last m m0 :
  is_leaf this = true ->
  compatible_ref this Float_ first last m
  = ((compatible_ref this Float_ first last m0).1, m).
Proof.
  destruct this as [name_ U a size_|name_ U a size1_ size2_|];
    cbn; intros Hleaf; try discriminate.
  - unfold Vector_Ref_compatible_ref.
    destruct (negb _); reflexivity.
  - unfold Matrix_Ref_compatible_ref.
    destruct (negb _); reflexivity.
Qed.

(** [compatible_ref] of a view on a range of exactly its count. *)
Lemma compatible_ref_view_exact this Float_ first m :
  is_leaf this = true ->
  exists new,
    compatible_ref this Float_ first (first + parameter_count this) m
    = (Ok new, m) /\
    is_leaf new = true /\
    storage new = Some (Float_, first) /\
    parameter_count new = parameter_count this /\
    (size_t_fields this -> size_t_fields new) /\
    forall F2 first2 last2 m2,
      compatible_ref new F2 first2 last2 m2
      = compatible_ref this F2 first2 last2 m2.
Proof.
  destruct this as [name_ U a size_|name_ U a size1_ size2_|];
    intros Hleaf; try discriminate.
  - exists (Vector_Ref name_ Float_ first size_). cbn.
    unfold Vector_Ref_compatible_ref, Vector_Ref_parameter_count.
    rewrite Z.eqb_refl.
    split; [reflexivity|]. split; [reflexivity|]. split; [reflexivity|].
    split; [reflexivity|]. split; [auto|reflexivity].
  - exists (Matrix_Ref name_ Float_ first size1_ size2_). cbn.
    unfold Matrix_Ref_compatible_ref.
    rewrite Z.eqb_refl.
    split; [reflexivity|]. split; [reflexivity|]. split; [reflexivity|].
    split; [reflexivity|]. split; [auto|reflexivity].
Qed.

(** X7: [compatible_ref] of a view onto its own buffer, with its own
    element type, returns the view itself. *)
Theorem compatible_ref_own_storage this Underlying array_ m :
  is_leaf this = true ->
  storage this = Some (Underlying, array_) ->
  compatible_ref this Underlying array_ (array_ + parameter_count this) m
  = (Ok this, m).
Proof.
  intros Hleaf Hstorage.
  destruct this as [name_ U a size_|name_ U a size1_ size2_|];
    try discriminate; injection Hstorage as <- <-; cbn.
  - unfold Vector_Ref_compatible_ref, Vector_Ref_parameter_count.
    rewrite Z.eqb_refl. reflexivity.
  - unfold Matrix_Ref_compatible_ref.
    rewrite Z.eqb_refl. reflexivity.
Qed.

(** X8: a view obtained by [compatible_ref] stands for the original in
    every later [compatible_ref]: the intermediate range and element type
    leave no trace in the result, be it a view or the exception. *)
Theorem compatible_ref_view_composes this F1 first1 F2 first2 last2 m :
  is_leaf this = true ->
  exists mid,
    compatible_ref this F1 first1 (first1 + parameter_count this) m
    = (Ok mid, m) /\
    compatible_ref mid F2 first2 last2 m
    = compatible_ref this F2 first2 last2 m.
Proof.
  intros Hleaf.
  destruct (compatible_ref_view_exact this F1 first1 m Hleaf)
    as (mid & Href & _ & _ & _ & _ & Hsame).
  exists mid. split; [exact Href|apply Hsame].
Qed.

(** X9: the view [compatible_ref] returns refers to the range it was given
    and not to the buffer of the original: flattening it into a
    destination apart from that range delivers the elements of the range,
    converted from the element type of the range. *)
Theorem copy_to_reads_compatible_range this Float_ first Dest where_ m :
  is_leaf this = true ->
  size_t_fields this ->
  (forall i j, 0 <= i < parameter_count this ->
               0 <= j < parameter_count this ->
               (Dest, where_ + j) <> (Float_, first + i)) ->
  exists new m',
    compatible_ref this Float_ first (first + parameter_count this) m
    = (Ok new, m) /\
    copy_to new Dest where_ (where_ + parameter_count this) m
    = (Ok (where_ + parameter_count this), m') /\
    load_range Dest where_ (parameter_count this) m'
    = map (convert Float_ Dest)
        (load_range Float_ first (parameter_count this) m).
Proof.
  intros Hleaf Hfields Hsep.
  destruct (compatible_ref_view_exact this Float_ first m Hleaf)
    as (new & Href & Hleaf' & Hstorage' & Hcount' & Hfields' & _).
  specialize (Hfields' Hfields).
  exists new, (std_copy Float_ first (Z.to_nat (parameter_count this))
                 Dest where_ m).
  split; [exact Href|]. split.
  - rewrite (copy_to_view_past_guard new Float_ first); try assumption.
    + rewrite Hcount'. reflexivity.
    + apply guard_false_on_exact_fit; try assumption. lia.
  - unfold load_range. rewrite map_map. apply map_ext_in. intros i Hi.
    apply in_seq in Hi. apply std_copy_delivers. lia.
Qed.

(** X10: [copy_to] of a matrix view is [copy_to] of the vector view of
    [size1_ * size2_] elements over the same buffer: the same heap, the
    same returned cursor, an exception in the same cases. *)
Theorem copy_to_matrix_as_vector name_ Underlying array_ size1_ size2_
    Float_ where_ limit m :
  (copy_to (Matrix_Ref name_ Underlying array_ size1_ size2_)
     Float_ where_ limit m).2
  = (copy_to (Vector_Ref name_ Underlying array_ (to_size_t (size1_ * size2_)))
       Float_ where_ limit m).2 /\
  is_Throw (copy_to (Matrix_Ref name_ Underlying array_ size1_ size2_)
              Float_ where_ limit m).1
  = is_Throw (copy_to (Vector_Ref name_ Underlying array_
                         (to_size_t (size1_ * size2_)))
                Float_ where_ limit m).1 /\
  (forall cur,
     (copy_to (Matrix_Ref name_ Underlying array_ size1_ size2_)
        Float_ where_ limit m).1 = Ok cur
     <-> (copy_to (Vector_Ref name_ Underlying array_
                     (to_size_t (size1_ * size2_)))
            Float_ where_ limit m).1 = Ok cur).
Proof.
  cbn [copy_to]. unfold Matrix_Ref_copy_to, Vector_Ref_copy_to,
    Matrix_Ref_parameter_count.
  destruct (_ >? _); cbn; repeat split; auto; intros; discriminate.
Qed.

(** X11: a view of count zero never writes: [copy_to] returns [where] when
    [limit] is [where], and throws on every destination that holds at least
    one element. *)
Theorem copy_to_empty_view this Float_ where_ limit m :
  is_leaf this = true ->
  parameter_count this = 0 ->
  (copy_to this Float_ where_ limit m).2 = m /\
  (limit = where_ -> (copy_to this Float_ where_ limit m).1 = Ok where_) /\
  (0 < limit - where_ < 2 ^ size_t_bits ->
   is_Throw (copy_to this Float_ where_ limit m).1 = true).
Proof.
  intros Hleaf Hempty.
  destruct (view_has_storage this Hleaf) as (U & a & Hstorage & _).
  rewrite (copy_to_view_cases this U a) by assumption.
  rewrite Hempty. change (Z.to_nat 0) with 0%nat. rewrite std_copy_nothing.
  split; [destruct (_ >? _); reflexivity|]. split.
  - intros ->. rewrite Z.sub_diag. cbn. rewrite Z.add_0_r. reflexivity.
  - intros Hpos. rewrite to_size_t_id by (unfold is_size_t; lia).
    replace (limit - where_ >? 0) with true; [reflexivity|].
    symmetry. apply Z.gtb_lt. lia.
Qed.

(** X12: on a range of exactly the count of a view, taking the compatible
    view and then filling the range with [copy_to] is filling the range and
    then taking the compatible view: the same view, the same heap. *)
Theorem compatible_ref_commutes_with_copy_to this Float_ first last m :
  is_leaf this = true ->
  size_t_fields this ->
  last - first = parameter_count this ->
  (new ← compatible_ref this Float_ first last;
   copy_to this Float_ first last;; mret new) m
  = (copy_to this Float_ first last;;
     compatible_ref this Float_ first last) m.
Proof.
  intros Hleaf Hfields Hlen.
  destruct (view_has_storage this Hleaf) as (U & a & Hstorage & _).
  assert (last = first + parameter_count this) as -> by lia.
  destruct (compatible_ref_view_exact this Float_ first m Hleaf)
    as (new & Href & _).
  unfold mbind, Eff_bind, mret, Eff_ret.
  rewrite Href.
  rewrite (copy_to_view_past_guard this U a)
    by (try apply guard_false_on_exact_fit; try assumption; lia).
  rewrite (compatible_ref_view_any_heap this Float_ first _ _ m Hleaf).
  rewrite Href. reflexivity.
Qed.

End MoreViews.

(* ===================================================================== *)
(** ** The further properties at sample inputs *)

(** X1 at a sample input: a reversed range. *)
Lemma copy_to_view_rejects_witness :
  parameter_count sample_vector < 2 ^ 63 /\
  - 2 ^ 63 <= 9 - 10 < 2 ^ 63 /\
  (is_Throw (copy_to sample_vector Double 10 9 counting_memory).1 = true
   <-> 9 < 10 \/ parameter_count sample_vector < 9 - 10).
Proof.
  assert (parameter_count sample_vector < 2 ^ 63) as Hcount.
  { cbn. unfold Vector_Ref_parameter_count. lia. }
  split; [exact Hcount|]. split; [lia|].
  apply (copy_to_view_rejects sample_vector Double 10 9 counting_memory).
  - reflexivity.
  - cbn. unfold is_size_t, size_t_bits. lia.
  - exact Hcount.
  - lia.
Defined.

(** X2 at a sample input: a destination longer than the view. *)
Lemma copy_to_view_throw_writes_nothing_witness :
  (copy_to sample_vector Double 10 13 counting_memory).1
  = Throw (copy_to_exception sample_vector) /\
  (copy_to sample_vector Double 10 13 counting_memory).2 = counting_memory /\
  kind (copy_to_exception sample_vector) = SizeMismatch.
Proof.
  assert ((copy_to sample_vector Double 10 13 counting_memory).1
          = Throw (copy_to_exception sample_vector)) as Hthrow
    by reflexivity.
  split; [exact Hthrow|].
  destruct (copy_to_view_throw_writes_nothing sample_vector Double 10 13
              counting_memory (copy_to_exception sample_vector)
              eq_refl Hthrow) as (Hheap & _ & Hkind).
  split; [exact Hheap|exact Hkind].
Defined.

(** X3 at a sample input: two [float]s into a [double] range. *)
Lemma copy_to_view_delivers_witness :
  (copy_to sample_vector Double 10 12 counting_memory).1 = Ok 12 /\
  load_range Double 10 2 (copy_to sample_vector Double 10 12 counting_memory).2
  = map (convert Float Double) (load_range Float 0 2 counting_memory) /\
  load_range Float 0 2 (copy_to sample_vector Double 10 12 counting_memory).2
  = load_range Float 0 2 counting_memory.
Proof.
  assert ((copy_to sample_vector Double 10 12 counting_memory).1 = Ok 12)
    as Hok by reflexivity.
  split; [exact Hok|].
  destruct (copy_to_view_delivers sample_vector Float 0 Double 10 12
              counting_memory 12) as (_ & Hdest & Hsource).
  - reflexivity.
  - reflexivity.
  - intros i j _ _. discriminate.
  - exact Hok.
  - split; [exact Hdest|exact Hsource].
Defined.

(** X4 at a sample input: the view of the [float]s at 1 and 2 copied to
    the range that starts at 0. *)
Lemma copy_to_view_left_overlap_witness :
  0 <= 1 /\
  (copy_to (Vector_Ref "w" Float 1 2) Float 0 2 counting_memory).1 = Ok 2 /\
  load_range Float 0 2
    (copy_to (Vector_Ref "w" Float 1 2) Float 0 2 counting_memory).2
  = load_range Float 1 2 counting_memory.
Proof.
  split; [lia|].
  assert ((copy_to (Vector_Ref "w" Float 1 2) Float 0 2 counting_memory).1
          = Ok 2) as Hok by reflexivity.
  split; [exact Hok|].
  apply (copy_to_view_left_overlap (Vector_Ref "w" Float 1 2) Float 1 0 2
           counting_memory 2).
  - reflexivity.
  - reflexivity.
  - lia.
  - exact Hok.
Defined.

(** X5 at a sample input: the [float]s at 1, 2 and 3 copied to the
    [float]s from 0 on, split after the first element. *)
Lemma copy_to_vector_split_witness :
  0 <= 1 /\ 0 <= 2 /\ 1 + 2 < 2 ^ size_t_bits /\
  (0 <= 1 \/ 1 + (1 + 2) <= 0) /\
  copy_to (Vector_Ref "w" Float 1 (1 + 2)) Float 0 (0 + (1 + 2))
    counting_memory
  = (cur ← copy_to (Vector_Ref "w" Float 1 1) Float 0 (0 + 1);
     copy_to (Vector_Ref "w" Float (1 + 1) 2) Float cur (cur + 2))
      counting_memory.
Proof.
  split; [lia|]. split; [lia|].
  split; [unfold size_t_bits; lia|]. split; [lia|].
  apply (copy_to_vector_split "w" Float 1 1 2 Float 0 counting_memory).
  - lia.
  - lia.
  - unfold size_t_bits. lia.
  - intros _. lia.
Defined.

(** Inside the buffer the two differ: the [float]s 1, 2 and 3 at the
    addresses 0 to 2 are copied to the [float]s from 1 on.  In one call the
    element at 2 receives the 2 that was at 1; head first, the tail reads
    at 1 the 1 that the head has written there. *)
Lemma copy_to_vector_split_inside_buffer :
  (copy_to (Vector_Ref "w" Float 0 3) Float 1 4 counting_memory).2 Float 2
  = S754_finite false 8388608 (-22) /\
  ((cur ← copy_to (Vector_Ref "w" Float 0 1) Float 1 2;
    copy_to (Vector_Ref "w" Float 1 2) Float cur (cur + 2))
     counting_memory).2 Float 2
  = S754_finite false 8388608 (-23).
Proof. vm_compute. split; reflexivity. Qed.

(** X6 at a sample input: a [float] vector of two and a [double] matrix of
    four appended into a [float] range of six. *)
Lemma copy_to_views_append_witness :
  exists m',
    (cur ← copy_to sample_vector Float 100 (100 + 2);
     copy_to (Matrix_Ref "b" Double 0 2 2) Float cur (cur + 4))
      counting_memory
    = (Ok 106, m') /\
    load_range Float 100 6 m'
    = map (convert Float Float) (load_range Float 0 2 counting_memory)
      ++ map (convert Double Float) (load_range Double 0 4 counting_memory).
Proof.
  destruct (copy_to_views_append sample_vector Float 0
              (Matrix_Ref "b" Double 0 2 2) Double 0 Float 100
              counting_memory) as (m' & Hcopy & Hdest & _).
  - reflexivity.
  - reflexivity.
  - cbn. unfold is_size_t, size_t_bits. lia.
  - cbn. unfold is_size_t, size_t_bits. lia.
  - reflexivity.
  - reflexivity.
  - intros b Hb Hin.
    change (parameter_count sample_vector
            + parameter_count (Matrix_Ref "b" Double 0 2 2)) with 6 in Hb.
    vm_compute in Hin.
    repeat (destruct Hin as [Hin|Hin];
            [first [discriminate Hin|injection Hin as <-; lia]|]).
    exact Hin.
  - exists m'. split; [exact Hcopy|exact Hdest].
Defined.

(** X7 at a sample input: the sample vector over its own two [float]s. *)
Lemma compatible_ref_own_storage_witness :
  storage sample_vector = Some (Float, 0) /\
  compatible_ref sample_vector Float 0 2 counting_memory
  = (Ok sample_vector, counting_memory).
Proof.
  split; [reflexivity|].
  apply (compatible_ref_own_storage sample_vector Float 0 counting_memory);
    reflexivity.
Defined.

(** X8 at a sample input: through a [double] range, then onto a [float]
    range of the right and of a wrong length. *)
Lemma compatible_ref_view_composes_witness :
  exists mid,
    compatible_ref sample_vector Double 10 12 counting_memory
    = (Ok mid, counting_memory) /\
    compatible_ref mid Float 20 22 counting_memory
    = compatible_ref sample_vector Float 20 22 counting_memory /\
    compatible_ref mid Float 20 23 counting_memory
    = compatible_ref sample_vector Float 20 23 counting_memory.
Proof.
  destruct (compatible_ref_view_composes sample_vector Double 10 Float 20 22
              counting_memory eq_refl) as (mid & Href & Hfit).
  exists mid. split; [exact Href|]. split; [exact Hfit|].
  destruct (compatible_ref_view_composes sample_vector Double 10 Float 20 23
              counting_memory eq_refl) as (mid' & Href' & Hlong).
  rewrite Href in Href'. injection Href' as <-. exact Hlong.
Defined.

(** X9 at a sample input: the sample vector rebased on the [float]s at 3
    and 4, then flattened into [double]s. *)
Lemma copy_to_reads_compatible_range_witness :
  exists new m',
    compatible_ref sample_vector Float 3 5 counting_memory
    = (Ok new, counting_memory) /\
    copy_to new Double 10 12 counting_memory = (Ok 12, m') /\
    load_range Double 10 2 m'
    = map (convert Float Double) (load_range Float 3 2 counting_memory).
Proof.
  apply (copy_to_reads_compatible_range sample_vector Float 3 Double 10
           counting_memory).
  - reflexivity.
  - cbn. unfold is_size_t, size_t_bits. lia.
  - intros i j _ _. discriminate.
Defined.

(** X11 at a sample input: a matrix view with no rows. *)
Lemma copy_to_empty_view_witness :
  parameter_count (Matrix_Ref "b" Float 0 0 3) = 0 /\
  (copy_to (Matrix_Ref "b" Float 0 0 3) Double 10 10 counting_memory).1
  = Ok 10 /\
  is_Throw
    (copy_to (Matrix_Ref "b" Float 0 0 3) Double 10 11 counting_memory).1
  = true.
Proof.
  split; [reflexivity|].
  destruct (copy_to_empty_view (Matrix_Ref "b" Float 0 0 3) Double 10 10
              counting_memory eq_refl eq_refl) as (_ & Hfit & _).
  destruct (copy_to_empty_view (Matrix_Ref "b" Float 0 0 3) Double 10 11
              counting_memory eq_refl eq_refl) as (_ & _ & Hlong).
  split; [apply Hfit; reflexivity|].
  apply Hlong. unfold size_t_bits. lia.
Defined.

(** X12 at a sample input: the sample vector and a [double] range of
    two. *)
Lemma compatible_ref_commutes_with_copy_to_witness :
  12 - 10 = parameter_count sample_vector /\
  (new ← compatible_ref sample_vector Double 10 12;
   copy_to sample_vector Double 10 12;; mret new) counting_memory
  = (copy_to sample_vector Double 10 12;;
     compatible_ref sample_vector Double 10 12) counting_memory.
Proof.
  split; [reflexivity|].
  apply (compatible_ref_commutes_with_copy_to sample_vector Double 10 12
           counting_memory).
  - reflexivity.
  - cbn. unfold is_size_t, size_t_bits. lia.
  - reflexivity.
Defined.
